(** * Identity-document processing: tax-id validation, classification,
      field extraction, face de-duplication and photo selection.

    A shallow embedding of the Python sources
      - [src/document_processor_robust.py]   (validator, classifier),
      - [bkp/document_processor.py]          (validator with the 14-digit rule),
      - [src/document_processor_textract.py] (field extraction and merging),
      - [bkp/document_processor_advanced_complete.py] (faces, photo tiers),
    with the properties the specification states about them. *)

From Stdlib Require Import String Ascii List ZArith Lia Bool Arith QArith
  Permutation Sorted.
Abbreviation length := List.length.
Import ListNotations.
Local Open Scope Z_scope.

(** ** Python strings

    A Python [str] is a sequence of code points.  Every character that the
    pattern tables of the program mention lies in U+0000..U+00FF, so a
    character is an [ascii] read as a Latin-1 code point and a [str] is a
    list of them. *)

Definition str := list ascii.

Definition lit (s : string) : str := list_ascii_of_string s.

Definition code (c : ascii) : nat := nat_of_ascii c.

Definition chr (n : nat) : ascii := ascii_of_nat n.

Definition between (lo hi : nat) (c : ascii) : bool :=
  (lo <=? code c)%nat && (code c <=? hi)%nat.

(** [0-9]; also what [\d] matches on these code points. *)
Definition is_digit (c : ascii) : bool := between 48 57 c.

Definition ascii_eqb (a b : ascii) : bool := Ascii.eqb a b.

Fixpoint str_eqb (a b : str) : bool :=
  match a, b with
  | [], [] => true
  | x :: a', y :: b' => ascii_eqb x y && str_eqb a' b'
  | _, _ => false
  end.

(** [s in l] for a list of strings. *)
Definition str_in (s : str) (l : list str) : bool := existsb (str_eqb s) l.

(** ** Exceptions

    The statements of the validator that can raise ([s[i]], [int(c)]) are
    kept fallible, so that "never raises" is a theorem and not a
    convention of the model. *)

(** [cv2.error] is what the image library raises. *)
Inductive pyexc : Type := IndexError | ValueError | Cv2Error.

Inductive result (A : Type) : Type :=
| Ok (a : A)
| Raise (e : pyexc).
Arguments Ok {A} a.
Arguments Raise {A} e.

Definition bind {A B} (m : result A) (k : A -> result B) : result B :=
  match m with Ok a => k a | Raise e => Raise e end.

Notation "x <- m ;; k" := (bind m (fun x => k))
  (at level 61, m at next level, right associativity).

(** [s[i]] with a non-negative index. *)
Definition getitem (s : str) (i : nat) : result ascii :=
  match nth_error s i with
  | Some c => Ok c
  | None => Raise IndexError
  end.

Definition digit_val (c : ascii) : Z := Z.of_nat (code c) - 48.

(** [int(c)] on a one-character string. *)
Definition py_int (c : ascii) : result Z :=
  if is_digit c then Ok (digit_val c) else Raise ValueError.

Definition digit_char (d : Z) : ascii := chr (Z.to_nat (48 + d)).

Fixpoint decimal (fuel : nat) (n : Z) (acc : str) : str :=
  match fuel with
  | O => acc
  | S f =>
      let acc' := digit_char (n mod 10) :: acc in
      if n <? 10 then acc' else decimal f (n / 10) acc'
  end.

(** [str(n)] on an integer. *)
Definition py_str (n : Z) : str :=
  if n <? 0 then chr 45 :: decimal (S (Z.to_nat (Z.log2 (- n)))) (- n) []
  else decimal (S (Z.to_nat (Z.log2 n))) n [].

(** [sum(f(i) for i in range(n))]: the generator is consumed left to
    right and the first exception ends it. *)
Fixpoint sum_gen (f : nat -> result Z) (idx : list nat) (acc : Z) : result Z :=
  match idx with
  | [] => Ok acc
  | i :: rest => x <- f i ;; sum_gen f rest (acc + x)
  end.

Definition range (n : nat) : list nat := seq 0 n.

(** ** CPFValidator *)

Section CPFValidator.

(** The class has two versions of [clean_cpf]; [validate_cpf] is the same
      text in both files and calls the one of its own class. *)
Variable clean_cpf : str -> str.

Definition check_digit_of (total : Z) : Z :=
    let digit := 11 - (total mod 11) in
    if 10 <=? digit then 0 else digit.

Definition validate_cpf (cpf : str) : result bool :=
    let cpf := clean_cpf cpf in
    if negb (length cpf =? 11)%nat then Ok false
    else
      c0 <- getitem cpf 0 ;;
      if str_eqb cpf (repeat c0 11) then Ok false
      else
        sum1 <- sum_gen (fun i => c <- getitem cpf i ;; d <- py_int c ;;
                                  Ok (d * (10 - Z.of_nat i))) (range 9) 0 ;;
        let digit1 := check_digit_of sum1 in
        sum2 <- sum_gen (fun i => c <- getitem cpf i ;; d <- py_int c ;;
                                  Ok (d * (11 - Z.of_nat i))) (range 10) 0 ;;
        let digit2 := check_digit_of sum2 in
        c9 <- getitem cpf 9 ;;
        if str_eqb [c9] (py_str digit1) then
          c10 <- getitem cpf 10 ;;
          Ok (str_eqb [c10] (py_str digit2))
        else Ok false.

End CPFValidator.

(** [re.sub(r'[^0-9]', '', cpf)] *)
Definition strip_non_digits (cpf : str) : str := filter is_digit cpf.

(** [s[-n:]] *)
Definition last_n (n : nat) (s : str) : str := skipn (length s - n) s.

Module Robust.
(** src/document_processor_robust.py *)
Definition clean_cpf (cpf : str) : str := strip_non_digits cpf.
Definition validate_cpf : str -> result bool := validate_cpf clean_cpf.
End Robust.

Module Bkp.
(** bkp/document_processor.py *)
Definition clean_cpf (cpf : str) : str :=
    let cleaned := strip_non_digits cpf in
    if (11 <? length cleaned)%nat then
      if (length cleaned =? 14)%nat then last_n 11 cleaned
      else firstn 11 cleaned
    else cleaned.
Definition validate_cpf : str -> result bool := validate_cpf clean_cpf.
End Bkp.

(** *** The check-digit rule in the specification's words

    "weighted sum of positions 1-9 for digit 10, weighted sum of positions
    1-10 for digit 11, each [11 - (sum mod 11)] mapped to 0 when >= 10".
    The weights descend to 2 at the last summed position. *)

Fixpoint weighted (ds : list Z) (top : Z) : Z :=
  match ds with
  | [] => 0
  | d :: rest => d * top + weighted rest (top - 1)
  end.

Definition spec_check_digit (ds : list Z) (n : nat) : Z :=
  let r := 11 - weighted (firstn n ds) (Z.of_nat n + 1) mod 11 in
  if 10 <=? r then 0 else r.

Definition tax_id_ok (digits : str) : Prop :=
  let ds := map digit_val digits in
  length digits = 11%nat /\
  (forall c, digits <> repeat c 11) /\
  nth_error ds 9 = Some (spec_check_digit ds 9) /\
  nth_error ds 10 = Some (spec_check_digit ds 10).

(** A string of digits alone. *)
Definition all_digits (s : str) : Prop := Forall (fun c => is_digit c = true) s.

(** ** Characters and string methods

    The character tables are those of CPython for the code points
    U+0000..U+00FF.  [upper] leaves alone the three letters whose upper case
    lies outside that range (U+00B5, U+00DF, U+00FF). *)

(** [str.isspace] on one character; also what [\s] matches. *)
Definition is_space (c : ascii) : bool :=
  between 9 13 c || between 28 32 c
  || (code c =? 133)%nat || (code c =? 160)%nat.

Definition is_upper (c : ascii) : bool :=
  between 65 90 c || (between 192 222 c && negb (code c =? 215)%nat).

Definition is_lower (c : ascii) : bool :=
  between 97 122 c || (between 223 255 c && negb (code c =? 247)%nat)
  || (code c =? 170)%nat || (code c =? 181)%nat || (code c =? 186)%nat.

Definition is_cased (c : ascii) : bool := is_upper c || is_lower c.

Definition lower (c : ascii) : ascii :=
  if is_upper c then chr (code c + 32) else c.

(** [c.upper()] on the letters whose capital is a Latin-1 character; it is
    applied to names, which are made of the letters of the name patterns. *)
Definition upper (c : ascii) : ascii :=
  if between 97 122 c
     || (between 224 254 c && negb (code c =? 247)%nat)
  then chr (code c - 32) else c.

(** [\w]: alphanumeric (letters, digits, superscripts and fractions) or
    the underscore. *)
Definition is_word (c : ascii) : bool :=
  is_digit c || is_cased c || (code c =? 95)%nat
  || (code c =? 178)%nat || (code c =? 179)%nat || (code c =? 185)%nat
  || between 188 190 c.

(** [s.lower()] *)
Definition str_lower (s : str) : str := map lower s.

(** [s.title()]: a cased character is capitalised after an uncased one (or
    at the start) and lowered after a cased one. *)
Fixpoint title_from (previous_is_cased : bool) (s : str) : str :=
  match s with
  | [] => []
  | c :: rest =>
      (if previous_is_cased then lower c else upper c)
        :: title_from (is_cased c) rest
  end.

Definition str_title (s : str) : str := title_from false s.

(** [s.lstrip()], [s.strip()] *)
Fixpoint lstrip (s : str) : str :=
  match s with
  | c :: rest => if is_space c then lstrip rest else s
  | [] => []
  end.

Definition strip (s : str) : str := rev (lstrip (rev (lstrip s))).

(** [s.split()]: the maximal runs of non-space characters. *)
Fixpoint split_from (word : str) (s : str) : list str :=
  match s with
  | [] => match word with [] => [] | _ => [rev word] end
  | c :: rest =>
      if is_space c then
        match word with
        | [] => split_from [] rest
        | _ => rev word :: split_from [] rest
        end
      else split_from (c :: word) rest
  end.

Definition split (s : str) : list str := split_from [] s.

(** [sep.join(parts)] *)
Fixpoint join (sep : str) (parts : list str) : str :=
  match parts with
  | [] => []
  | [p] => p
  | p :: rest => p ++ sep ++ join sep rest
  end.

(** [s[b:e]] for [0 <= b]. *)
Definition slice (s : str) (b e : nat) : str := firstn (e - b) (skipn b s).

Fixpoint starts_with (sub s : str) : bool :=
  match sub, s with
  | [], _ => true
  | x :: sub', y :: s' => ascii_eqb x y && starts_with sub' s'
  | _ :: _, [] => false
  end.

(** [s.find(sub)]: the first index at which [sub] occurs. *)
Fixpoint find_from (sub s : str) (pos : nat) : option nat :=
  if starts_with sub s then Some pos
  else match s with
       | [] => None
       | _ :: rest => find_from sub rest (S pos)
       end.

Definition find (s sub : str) : option nat := find_from sub s 0.

(** [sub in s] *)
Definition contains (s sub : str) : bool :=
  match find s sub with Some _ => true | None => false end.

(** [s.isdigit()]: non-empty and all digits (the superscripts U+00B2,
    U+00B3 and U+00B9 count as digits for this method). *)
Definition isdigit_char (c : ascii) : bool :=
  is_digit c || (code c =? 178)%nat || (code c =? 179)%nat
  || (code c =? 185)%nat.

Definition str_isdigit (s : str) : bool :=
  match s with [] => false | _ => forallb isdigit_char s end.

(** ** Regular expressions

    Every pattern of the program is a sequence of single-character classes
    under a greedy quantifier, with at most one capturing group and the
    anchors [^], [$] and [\b].  The matcher below is the backtracking
    search of [re] on such patterns: a quantified class first takes as
    many characters as it may and gives them back one by one. *)

Inductive atom : Type :=
| Chr (c : ascii)
| Rng (lo hi : nat)
| Space
| Digit.

(** A class is the union of its atoms. *)
Definition cls := list atom.

Inductive item : Type :=
| Rep (c : cls) (lo : nat) (hi : option nat)
| GroupOpen
| GroupClose
| Bol
| Eol
| WordB.

Definition regex := list item.

Record flags : Type := { ignorecase : bool; multiline : bool }.

Definition no_flags := {| ignorecase := false; multiline := false |}.
Definition IGNORECASE := {| ignorecase := true; multiline := false |}.
Definition IGNORECASE_MULTILINE := {| ignorecase := true; multiline := true |}.

Definition in_atom (a : atom) (c : ascii) : bool :=
  match a with
  | Chr x => ascii_eqb x c
  | Rng lo hi => between lo hi c
  | Space => is_space c
  | Digit => is_digit c
  end.

Definition in_cls (fl : flags) (k : cls) (c : ascii) : bool :=
  let hit x := existsb (fun a => in_atom a x) k in
  if ignorecase fl then hit c || hit (lower c) || hit (upper c) else hit c.

(** Group state: where the group was opened, and its last closed span. *)
Definition gstate : Type := option nat * option (nat * nat).

Definition outcome : Type := nat * option (nat * nat).

Definition cont : Type := option ascii -> str -> nat -> gstate -> option outcome.

Definition may_take (hi : option nat) : bool :=
  match hi with Some O => false | _ => true end.

Fixpoint greedy (p : ascii -> bool) (k : cont) (lo : nat) (hi : option nat)
    (prev : option ascii) (s : str) (pos : nat) (g : gstate) {struct s}
    : option outcome :=
  let stop := match lo with O => k prev s pos g | S _ => None end in
  match s with
  | c :: rest =>
      if p c && may_take hi then
        match greedy p k (pred lo) (option_map pred hi) (Some c) rest
                (S pos) g with
        | Some r => Some r
        | None => stop
        end
      else stop
  | [] => stop
  end.

Definition is_newline (c : ascii) : bool := (code c =? 10)%nat.

Definition at_bol (fl : flags) (prev : option ascii) : bool :=
  match prev with
  | None => true
  | Some c => multiline fl && is_newline c
  end.

Definition at_eol (fl : flags) (s : str) : bool :=
  match s with
  | [] => true
  | c :: rest =>
      is_newline c && (multiline fl || match rest with [] => true | _ => false end)
  end.

Definition word_before (prev : option ascii) : bool :=
  match prev with Some c => is_word c | None => false end.

Definition word_after (s : str) : bool :=
  match s with c :: _ => is_word c | [] => false end.

Fixpoint match_items (fl : flags) (its : regex) : cont :=
  match its with
  | [] => fun _ _ pos g => Some (pos, snd g)
  | it :: rest =>
      let k := match_items fl rest in
      match it with
      | Rep c lo hi => greedy (in_cls fl c) k lo hi
      | GroupOpen => fun prev s pos g => k prev s pos (Some pos, snd g)
      | GroupClose => fun prev s pos g =>
          k prev s pos
            (fst g, match fst g with Some b => Some (b, pos) | None => snd g end)
      | Bol => fun prev s pos g => if at_bol fl prev then k prev s pos g else None
      | Eol => fun prev s pos g => if at_eol fl s then k prev s pos g else None
      | WordB => fun prev s pos g =>
          if xorb (word_before prev) (word_after s) then k prev s pos g else None
      end
  end.

Record rmatch : Type :=
  { m_start : nat; m_end : nat; m_group : option (nat * nat) }.

(** All non-overlapping matches, leftmost first: after a match the scan
    resumes where it ended ([skip] counts the characters still to pass). *)
Fixpoint scan (fl : flags) (re : regex) (prev : option ascii) (s : str)
    (pos skip : nat) {struct s} : list rmatch :=
  match skip with
  | S n =>
      match s with
      | [] => []
      | c :: rest => scan fl re (Some c) rest (S pos) n
      end
  | O =>
      match match_items fl re prev s pos (None, None) with
      | Some (e, g) =>
          {| m_start := pos; m_end := e; m_group := g |}
            :: match s with
               | [] => []
               | c :: rest => scan fl re (Some c) rest (S pos) (e - pos - 1)
               end
      | None =>
          match s with
          | [] => []
          | c :: rest => scan fl re (Some c) rest (S pos) 0
          end
      end
  end.

Definition finditer (re : regex) (text : str) (fl : flags) : list rmatch :=
  scan fl re None text 0 0.

(** [m.group(0)] and [m.group(1)] *)
Definition group0 (text : str) (m : rmatch) : str :=
  slice text (m_start m) (m_end m).

Definition group1 (text : str) (m : rmatch) : str :=
  match m_group m with
  | Some (b, e) => slice text b e
  | None => group0 text m
  end.

(** [re.findall(re, text, flags)]: the group of each match when the
    pattern has one, else the whole match. *)
Definition findall (re : regex) (text : str) (fl : flags) : list str :=
  map (group1 text) (finditer re text fl).

(** [re.search(re, text, flags)] *)
Definition search (re : regex) (text : str) (fl : flags) : option rmatch :=
  match finditer re text fl with
  | m :: _ => Some m
  | [] => None
  end.

(** Pattern notation. *)
Definition one (k : cls) : item := Rep k 1 (Some 1%nat).
Definition opt (k : cls) : item := Rep k 0 (Some 1%nat).
Definition star (k : cls) : item := Rep k 0 None.
Definition plus (k : cls) : item := Rep k 1 None.
Definition times (n : nat) (k : cls) : item := Rep k n (Some n).
Definition at_least (n : nat) (k : cls) : item := Rep k n None.

(** A literal word, and a literal character given by its code point. *)
Definition word (w : string) : regex := map (fun c => one [Chr c]) (lit w).
Definition cp (n : nat) : regex := [one [Chr (chr n)]].

(** Shorthands for the pieces the pattern tables repeat. *)
Definition sp : item := plus [Space].              (* \s+ *)
Definition sps : item := star [Space].             (* \s* *)
Definition colon_opt : item := opt [Chr ":"%char]. (* :? *)
Definition digits_plus : item := plus [Digit].     (* \d+ *)

(** ** DocumentClassifier (src/document_processor_robust.py) *)

Inductive doc_type : Type := RG | CNH | PASSAPORTE.

(** [self.document_patterns]: the three signature lists, then the
    dictionary in the order it is written. *)
Definition rg_patterns : list regex :=
  [ word "registro" ++ [sp] ++ word "geral";
    word "carteira" ++ [sp] ++ word "de" ++ [sp] ++ word "identidade";
    word "rep" ++ cp 250 ++ word "blica" ++ [sp] ++ word "federativa"
      ++ [sp] ++ word "do" ++ [sp] ++ word "brasil";
    word "secretaria" ++ [sp] ++ word "de" ++ [sp] ++ word "seguran"
      ++ cp 231 ++ word "a";
    word "rg" ++ [sps; colon_opt; sps; digits_plus] ].

Definition cnh_patterns : list regex :=
  [ word "carteira" ++ [sp] ++ word "nacional" ++ [sp] ++ word "de"
      ++ [sp] ++ word "habilita" ++ cp 231 ++ cp 227 ++ word "o";
    word "permiss" ++ cp 227 ++ word "o" ++ [sp] ++ word "para"
      ++ [sp] ++ word "dirigir";
    word "categoria";
    word "validade";
    word "cnh" ++ [sps; colon_opt; sps; digits_plus];
    word "registro" ++ [sps; colon_opt; sps; digits_plus] ].

Definition passaporte_patterns : list regex :=
  [ word "passaporte";
    word "passport";
    word "rep" ++ cp 250 ++ word "blica" ++ [sp] ++ word "federativa"
      ++ [sp] ++ word "do" ++ [sp] ++ word "brasil";
    word "minist" ++ cp 233 ++ word "rio" ++ [sp] ++ word "das" ++ [sp]
      ++ word "rela" ++ cp 231 ++ cp 245 ++ word "es" ++ [sp]
      ++ word "exteriores";
    word "tipo" ++ [sps] ++ word ":" ++ [sps] ++ word "p";
    word "pa" ++ cp 237 ++ word "s" ++ [sp] ++ word "de" ++ [sp]
      ++ word "emiss" ++ cp 227 ++ word "o" ].

Definition document_patterns : list (doc_type * list regex) :=
  [ (RG, rg_patterns); (CNH, cnh_patterns); (PASSAPORTE, passaporte_patterns) ].

(** The inner loop: [score += len(re.findall(pattern, text, re.IGNORECASE))]. *)
Definition pattern_score (patterns : list regex) (text : str) : nat :=
  fold_left
    (fun score pattern => (score + length (findall pattern text IGNORECASE))%nat)
    patterns 0%nat.

(** [max(values)] on a non-empty list. *)
Definition max_value {K} (scores : list (K * nat)) : nat :=
  fold_left (fun m kv => Nat.max m (snd kv)) scores 0%nat.

(** [max(scores, key=scores.get)]: the first key, in iteration order,
    whose value no later key exceeds. *)
Fixpoint max_from {K} (best : K) (best_value : nat) (rest : list (K * nat)) : K :=
  match rest with
  | [] => best
  | (k, v) :: rest' =>
      if (best_value <? v)%nat then max_from k v rest'
      else max_from best best_value rest'
  end.

Definition max_key {K} (scores : list (K * nat)) : option K :=
  match scores with
  | [] => None
  | (k, v) :: rest => Some (max_from k v rest)
  end.

Definition classify_scores {K} (scores : list (K * nat)) : option K :=
  match scores with
  | [] => None
  | _ => if (0 <? max_value scores)%nat then max_key scores else None
  end.

Definition scores_of (text : str) : list (doc_type * nat) :=
  map (fun entry => (fst entry, pattern_score (snd entry) text))
      document_patterns.

Definition identify_document_type (text : str) : option doc_type :=
  match text with
  | [] => None
  | _ => classify_scores (scores_of (str_lower text))
  end.

(** The score of one type on a text, as [identify_document_type] counts it. *)
Definition patterns_of (t : doc_type) : list regex :=
  match t with
  | RG => rg_patterns
  | CNH => cnh_patterns
  | PASSAPORTE => passaporte_patterns
  end.

Definition type_score (t : doc_type) (text : str) : nat :=
  pattern_score (patterns_of t) (str_lower text).

(** Position of a type in the table. *)
Definition rank (t : doc_type) : nat :=
  match t with RG => 0 | CNH => 1 | PASSAPORTE => 2 end%nat.

(** ** FieldExtractor (src/document_processor_textract.py) *)

Module Textract.

(** The validator of this file is the text of [Robust]'s. *)
Definition clean_cpf (cpf : str) : str := strip_non_digits cpf.
Definition validate_cpf : str -> result bool := validate_cpf clean_cpf.

(** [if CPFValidator.validate_cpf(c):] -- the call returns on every
    string ([validate_cpf_checksum]), so the test reads its Boolean. *)
Definition cpf_is_valid (c : str) : bool :=
  match validate_cpf c with
  | Ok b => b
  | Raise _ => false
  end.

Definition D : cls := [Digit].
Definition dot : cls := [Chr "."%char].
Definition dash : cls := [Chr "-"%char].

(** [(\d{3}\.?\d{3}\.?\d{3}-?\d{2})] and [(\d{11})] *)
Definition cpf_formatted : regex :=
  [GroupOpen; times 3 D; opt dot; times 3 D; opt dot; times 3 D; opt dash;
   times 2 D; GroupClose].
Definition cpf_plain : regex := [GroupOpen; times 11 D; GroupClose].

(** [(\d{3}[\.\s]?\d{3}[\.\s]?\d{3}[\-\s]?\d{2})] *)
Definition cpf_flexible : regex :=
  [GroupOpen; times 3 D; opt [Chr "."%char; Space]; times 3 D;
   opt [Chr "."%char; Space]; times 3 D; opt [Chr "-"%char; Space];
   times 2 D; GroupClose].

(** [A-ZÁÀÂÃÉÊÍÓÔÕÚÇ] and [A-Za-záàâãéêíóôõúç\s] *)
Definition name_head : cls :=
  [Rng 65 90; Chr (chr 193); Chr (chr 192); Chr (chr 194); Chr (chr 195);
   Chr (chr 201); Chr (chr 202); Chr (chr 205); Chr (chr 211); Chr (chr 212);
   Chr (chr 213); Chr (chr 218); Chr (chr 199)].
Definition name_tail : cls :=
  [Rng 65 90; Rng 97 122; Chr (chr 225); Chr (chr 224); Chr (chr 226);
   Chr (chr 227); Chr (chr 233); Chr (chr 234); Chr (chr 237); Chr (chr 243);
   Chr (chr 244); Chr (chr 245); Chr (chr 250); Chr (chr 231); Space].

Definition name_capture : regex :=
  [GroupOpen; one name_head; plus name_tail; GroupClose].

Definition c_p_f : regex := word "c.p.f".
Definition cadastro : regex :=
  word "cadastro" ++ [sp] ++ word "de" ++ [sp] ++ word "pessoa" ++ [sp]
    ++ word "f" ++ cp 237 ++ word "sica".

(** [\d+\.?\d*\.?\d*-?\d*] in a group *)
Definition rg_number : regex :=
  [GroupOpen; plus D; opt dot; star D; opt dot; star D; opt dash; star D;
   GroupClose].

(** [self.info_patterns] *)
Definition nome_patterns : list regex :=
  [ word "nome" ++ [sps; colon_opt; sps] ++ name_capture;
    word "name" ++ [sps; colon_opt; sps] ++ name_capture;
    word "titular" ++ [sps; colon_opt; sps] ++ name_capture;
    [Bol; GroupOpen; one name_head; at_least 10 name_tail; GroupClose; Eol] ].

Definition cpf_patterns : list regex :=
  [ word "cpf" ++ [sps; colon_opt; sps] ++ cpf_formatted;
    word "cpf" ++ [sps; colon_opt; sps] ++ cpf_plain;
    word "cpf" ++ [sp] ++ cpf_formatted;
    word "cpf" ++ [sp] ++ cpf_plain;
    c_p_f ++ [sps; colon_opt; sps] ++ cpf_formatted;
    c_p_f ++ [sps; colon_opt; sps] ++ cpf_plain;
    cadastro ++ [sps; colon_opt; sps] ++ cpf_formatted;
    cadastro ++ [sps; colon_opt; sps] ++ cpf_plain;
    word "cpf" ++ [sps; opt [Chr ":"%char; Chr "-"%char]; sps] ++ cpf_flexible;
    c_p_f ++ [sps; opt [Chr ":"%char; Chr "-"%char]; sps] ++ cpf_flexible ].

Definition rg_patterns : list regex :=
  [ word "rg" ++ [sps; colon_opt; sps] ++ rg_number;
    word "registro" ++ [sps; colon_opt; sps] ++ rg_number;
    word "identidade" ++ [sps; colon_opt; sps] ++ rg_number ].

Definition nis_pis_pasep_patterns : list regex :=
  [ word "nis" ++ [sps; colon_opt; sps] ++ cpf_plain;
    word "pis" ++ [sps; colon_opt; sps] ++ cpf_plain;
    word "pasep" ++ [sps; colon_opt; sps] ++ cpf_plain;
    word "nis/pis/pasep" ++ [sps; colon_opt; sps] ++ cpf_plain;
    word "pis/pasep" ++ [sps; colon_opt; sps] ++ cpf_plain ].

(** [cpf_direct_patterns] and [generic_patterns], local to the function *)
Definition cpf_direct_patterns : list regex :=
  [ word "cpf" ++ [sp] ++ cpf_formatted;
    word "cpf" ++ [sp] ++ cpf_plain;
    word "cpf" ++ [sps] ++ cpf_formatted;
    word "cpf" ++ [sps] ++ cpf_plain;
    word "cpf" ++ [sps; one [Chr (chr 10)]; sps] ++ cpf_formatted;
    word "cpf" ++ [sps; one [Chr (chr 10)]; sps] ++ cpf_plain ].

Definition generic_patterns : list regex :=
  [ [WordB] ++ cpf_formatted ++ [WordB];
    [WordB] ++ cpf_plain ++ [WordB] ].

Record info : Type := { nome : str; cpf : str; rg : str }.

(** [f"{c[:3]}.{c[3:6]}.{c[6:9]}-{c[9:]}"] *)
Definition format_cpf (c : str) : str :=
  slice c 0 3 ++ lit "." ++ slice c 3 6 ++ lit "." ++ slice c 6 9
    ++ lit "-" ++ skipn 9 c.

(** [nis_pis_numbers]: every capture of every welfare-number pattern. *)
Definition nis_pis_numbers (text : str) : list str :=
  fold_left (fun numbers pattern => numbers ++ findall pattern text IGNORECASE)
            nis_pis_pasep_patterns [].

(** [re.sub(r'[^A-Za-záàâãéêíóôõúç\s]', '', nome)] then
    [' '.join(nome.split())] *)
Definition keep_name_chars (s : str) : str := filter (in_cls no_flags name_tail) s.
Definition normalise_name (s : str) : str :=
  join (lit " ") (split (keep_name_chars s)).

(** The name loop: the first pattern whose first match passes the test. *)
Fixpoint extract_nome (patterns : list regex) (text : str) : str :=
  match patterns with
  | [] => []
  | pattern :: rest =>
      match search pattern text IGNORECASE_MULTILINE with
      | Some m =>
          let nome := normalise_name (strip (group1 text m)) in
          if (5 <? length nome)%nat && negb (str_isdigit nome)
          then str_title nome
          else extract_nome rest text
      | None => extract_nome rest text
      end
  end.

(** The test both label-anchored passes apply to one capture. *)
Definition anchored_step (nis : list str) (cands : list str) (m : str)
    : list str :=
  let cpf_clean := clean_cpf m in
  if (length cpf_clean =? 11)%nat then
    if negb (str_in cpf_clean nis) then
      if cpf_is_valid cpf_clean then cands ++ [cpf_clean] else cands
    else cands
  else cands.

Definition anchored_pass (patterns : list regex) (fl : flags) (text : str)
    (nis : list str) (cands : list str) : list str :=
  fold_left
    (fun cands pattern =>
       fold_left (anchored_step nis) (findall pattern text fl) cands)
    patterns cands.

Definition cpf_indicators : list str :=
  [lit "cpf"; lit "c.p.f"; lit "cadastro"; lit "pessoa";
   lit "f" ++ [chr 237] ++ lit "sica"].
Definition nis_indicators : list str := [lit "nis"; lit "pis"; lit "pasep"].

Definition context_window : nat := 50.

(** [context_before + context_after], around the first occurrence of the
    matched string. *)
Definition context_at (text m : str) (match_pos : nat) : str :=
  str_lower (slice text (match_pos - context_window) match_pos)
    ++ str_lower (slice text match_pos (match_pos + length m + context_window)).

Definition has_context (indicators : list str) (context : str) : bool :=
  existsb (contains context) indicators.

(** The test of the unanchored pass on one capture. *)
Definition generic_step (text : str) (nis : list str) (cands : list str)
    (m : str) : list str :=
  let cpf_clean := clean_cpf m in
  if (length cpf_clean =? 11)%nat then
    if negb (str_in cpf_clean nis) then
      if cpf_is_valid cpf_clean then
        match find text m with
        | Some match_pos =>
            let context := context_at text m match_pos in
            let has_cpf_context := has_context cpf_indicators context in
            let has_nis_context := has_context nis_indicators context in
            if has_cpf_context && negb has_nis_context
            then cands ++ [cpf_clean]
            else if negb has_nis_context
                    && match cands with [] => true | _ => false end
                 then cands ++ [cpf_clean]
                 else cands
        | None => cands
        end
      else cands
    else cands
  else cands.

Definition generic_pass (text : str) (nis : list str) (cands : list str)
    : list str :=
  fold_left
    (fun cands pattern =>
       fold_left (generic_step text nis) (findall pattern text no_flags) cands)
    generic_patterns cands.

Definition cpf_candidates (text : str) : list str :=
  let nis := nis_pis_numbers text in
  let cands := anchored_pass cpf_patterns IGNORECASE text nis [] in
  let cands :=
    match cands with
    | [] => anchored_pass cpf_direct_patterns IGNORECASE_MULTILINE text nis []
    | _ => cands
    end in
  match cands with
  | [] => generic_pass text nis []
  | _ => cands
  end.

Fixpoint extract_rg (patterns : list regex) (text : str) : str :=
  match patterns with
  | [] => []
  | pattern :: rest =>
      match search pattern text IGNORECASE with
      | Some m => strip (group1 text m)
      | None => extract_rg rest text
      end
  end.

Definition extract_information_from_text (text : str) : info :=
  {| nome := extract_nome nome_patterns text;
     cpf := match cpf_candidates text with
            | cpf_clean :: _ => format_cpf cpf_clean
            | [] => []
            end;
     rg := extract_rg rg_patterns text |}.

(** *** [extract_information_from_forms]

    [key_value_pairs] is a dictionary read in insertion order: a list of
    (key, value) pairs. *)

Definition nome_keys : list str := [lit "nome"; lit "name"; lit "titular"].
Definition cpf_keys : list str :=
  [lit "cpf"; lit "c.p.f";
   lit "cadastro de pessoa f" ++ [chr 237] ++ lit "sica"].
Definition rg_keys : list str :=
  [lit "rg"; lit "registro geral"; lit "identidade"; lit "registro"].
Definition nis_keys : list str :=
  [lit "nis"; lit "pis"; lit "pasep"; lit "nis/pis/pasep"; lit "pis/pasep"].

(** [any(pk in key.lower() for pk in possible_keys)] *)
Definition key_matches (possible_keys : list str) (key : str) : bool :=
  existsb (contains (str_lower key)) possible_keys.

(** [\d{11}] and [\d{3}\.?\d{3}\.?\d{3}-?\d{2}], without a group *)
Definition eleven_digits : regex := [times 11 D].
Definition cpf_traditional : regex :=
  [times 3 D; opt dot; times 3 D; opt dot; times 3 D; opt dash; times 2 D].

Definition forms_nis_pis_numbers (key_value_pairs : list (str * str))
    : list str :=
  fold_left
    (fun numbers kv =>
       if key_matches nis_keys (fst kv) then
         match search eleven_digits (snd kv) no_flags with
         | Some nis_match => numbers ++ [group0 (snd kv) nis_match]
         | None => numbers
         end
       else numbers)
    key_value_pairs [].

(** The characters of the class the first [re.sub] deletes. *)
Definition ocr_noise : str :=
  lit "~`!@#$%^&*()_+=[]{}|\:" ++ [chr 34] ++ lit ";'<>?,./".

Definition remove_chars (chars s : str) : str :=
  filter (fun c => negb (existsb (ascii_eqb c) chars)) s.

Definition replace_char (a b : ascii) (s : str) : str :=
  map (fun c => if ascii_eqb c a then b else c) s.

(** The five substitutions on a structured tax-id value. *)
Definition fix_ocr (value : str) : str :=
  let cpf_value := remove_chars ocr_noise value in
  let cpf_value := replace_char "O" "0" cpf_value in
  let cpf_value := replace_char "l" "1" cpf_value in
  let cpf_value := replace_char "S" "5" cpf_value in
  replace_char "Z" "2" cpf_value.

(** The three nested tests both attempts share. *)
Definition accept_cpf (nis : list str) (cpf_clean : str) : option str :=
  if (length cpf_clean =? 11)%nat then
    if negb (str_in cpf_clean nis) then
      if cpf_is_valid cpf_clean then Some (format_cpf cpf_clean) else None
    else None
  else None.

Definition cpf_after_fix (nis : list str) (value : str) : option str :=
  let cpf_value := fix_ocr value in
  match search eleven_digits cpf_value no_flags with
  | Some cpf_match => accept_cpf nis (group0 cpf_value cpf_match)
  | None => None
  end.

Definition cpf_as_written (nis : list str) (value : str) : option str :=
  match search cpf_traditional value no_flags with
  | Some cpf_match => accept_cpf nis (clean_cpf (group0 value cpf_match))
  | None => None
  end.

Fixpoint forms_cpf (nis : list str) (key_value_pairs : list (str * str))
    : str :=
  match key_value_pairs with
  | [] => []
  | (key, value) :: rest =>
      if key_matches cpf_keys key then
        match cpf_after_fix nis value with
        | Some formatted => formatted
        | None =>
            match cpf_as_written nis value with
            | Some formatted => formatted
            | None => forms_cpf nis rest
            end
        end
      else forms_cpf nis rest
  end.

Fixpoint forms_nome (key_value_pairs : list (str * str)) : str :=
  match key_value_pairs with
  | [] => []
  | (key, value) :: rest =>
      if key_matches nome_keys key then
        let nome := normalise_name value in
        if (5 <? length nome)%nat then str_title nome else forms_nome rest
      else forms_nome rest
  end.

Fixpoint forms_rg (key_value_pairs : list (str * str)) : str :=
  match key_value_pairs with
  | [] => []
  | (key, value) :: rest =>
      if key_matches rg_keys key then strip value else forms_rg rest
  end.

Definition extract_information_from_forms
    (key_value_pairs : list (str * str)) : info :=
  {| nome := forms_nome key_value_pairs;
     cpf := forms_cpf (forms_nis_pis_numbers key_value_pairs) key_value_pairs;
     rg := forms_rg key_value_pairs |}.

(** *** [process_document]: the merge of the two extractions

    [info_forms.get(field) or info_text.get(field, '')] *)
Definition py_or (a b : str) : str :=
  match a with [] => b | _ => a end.

Definition combine (info_forms info_text : info) : info :=
  {| nome := py_or (nome info_forms) (nome info_text);
     cpf := py_or (cpf info_forms) (cpf info_text);
     rg := py_or (rg info_forms) (rg info_text) |}.

Definition extracted_info (text : str) (key_value_pairs : list (str * str))
    : info :=
  combine (extract_information_from_forms key_value_pairs)
          (extract_information_from_text text).

(** [cpf_valido = False; if info['cpf']: cpf_valido = validate_cpf(...)] *)
Definition cpf_valido (i : info) : result bool :=
  match cpf i with
  | [] => Ok false
  | _ => validate_cpf (cpf i)
  end.

End Textract.

(** ** FaceCandidateDetector and PhotoSelector
       (bkp/document_processor_advanced_complete.py) *)

Module Advanced.

(** One detection: the tuple [(x, y, w, h, method_name)]. *)
Record face : Type := { x : Z; y : Z; w : Z; h : Z; method : str }.

Definition overlap_area (face1 face2 : face) : Z :=
  let overlap_x :=
    Z.max 0 (Z.min (x face1 + w face1) (x face2 + w face2)
             - Z.max (x face1) (x face2)) in
  let overlap_y :=
    Z.max 0 (Z.min (y face1 + h face1) (y face2 + h face2)
             - Z.max (y face1) (y face2)) in
  overlap_x * overlap_y.

Definition area (f : face) : Z := w f * h f.

(** [overlap_area > 0.5 * min(area1, area2)].  The right-hand side is a
    float; on pixel areas (integers below 2^53) the product with 0.5 is
    exact, and an integer is compared with a float by value, so the test
    is the one on rationals. *)
Definition too_close (face1 face2 : face) : bool :=
  negb (Qle_bool (inject_Z (overlap_area face1 face2))
                 ((1 # 2) * inject_Z (Z.min (area face1) (area face2)))).

(** The loop of [remove_duplicate_faces]; [is_duplicate] is the flag the
    inner loop sets. *)
Fixpoint unique_loop (faces unique_faces : list face) : list face :=
  match faces with
  | [] => unique_faces
  | face1 :: rest =>
      let is_duplicate := existsb (too_close face1) unique_faces in
      if is_duplicate then unique_loop rest unique_faces
      else unique_loop rest (unique_faces ++ [face1])
  end.

Definition remove_duplicate_faces (faces : list face) : list face :=
  if (length faces <=? 1)%nat then faces else unique_loop faces [].

Section Detector.

(** The image library is a parameter: an image type with the two
      observations the code makes of it, and the calls into [cv2]. *)
Variable Image : Type.
(** [img is None or img.size == 0] *)
Variable is_empty : Image -> bool.
(** [(img.shape[0], img.shape[1])] *)
Variable shape : Image -> Z * Z.
(** [cv2.cvtColor(image, cv2.COLOR_BGR2GRAY) if len(image.shape) == 3
      else image] *)
Variable to_gray : Image -> result Image.
(** Which of the three cascade files [__init__] could load. *)
Variable loaded : str -> bool.
(** [cascade.detectMultiScale(gray, ...)] with the parameters of the
      method. *)
Variable detectMultiScale : str -> Image -> result (list (Z * Z * Z * Z)).
(** What the [try] block of [enhance_image_for_detection] appended before
      it ended or failed. *)
Variable enhanced_versions : Image -> list Image.
(** [crop_face_3x4]: [None] when the crop is empty or anything failed. *)
Variable crop_face_3x4 : Image -> Z -> Z -> Z -> Z -> option Image.

(** Floating-point numbers: true division of two integers, the product,
      the two literals, and [<]. *)
Variable float : Type.
Variable true_div : Z -> Z -> float.
Variable fmul : float -> float -> float.
Variable f1_2 : float.
Variable f1_1 : float.
Variable flt : float -> float -> bool.

Definition face_cascades : list str :=
  filter loaded [lit "frontal_default"; lit "frontal_alt"; lit "profile"].

Definition faces_of_method (gray : Image) (method_name : str) : list face :=
  match detectMultiScale method_name gray with
  | Ok faces =>
      map (fun b => let '(x, y, w, h) := b in
                    {| x := x; y := y; w := w; h := h; method := method_name |})
          faces
  | Raise _ => []
  end.

Definition detect_faces_multiple_methods (image : Image)
    : result (list face) :=
  if is_empty image then Ok []
  else
    gray <- to_gray image ;;
    let all_faces := flat_map (faces_of_method gray) face_cascades in
    Ok (remove_duplicate_faces all_faces).

Definition enhance_image_for_detection (image : Image) : list Image :=
  image :: enhanced_versions image.

(** [(face_image, detection_method, confidence_score)] *)
Definition candidate : Type := Image * str * float.

Definition confidence_of (c : candidate) : float := snd c.

Definition confidence_score (enhanced_img : Image) (w h : Z) (method : str)
    (enh_idx : nat) : float :=
  let face_area := w * h in
  let confidence :=
    true_div face_area (fst (shape enhanced_img) * snd (shape enhanced_img)) in
  let confidence :=
    if str_eqb method (lit "frontal_default") then fmul confidence f1_2
    else if str_eqb method (lit "frontal_alt") then fmul confidence f1_1
    else confidence in
  if (enh_idx =? 0)%nat then fmul confidence f1_1 else confidence.

Definition detection_info (method : str) (enh_idx : nat) : str :=
  method ++ lit "_enh" ++ py_str (Z.of_nat enh_idx).

Definition candidates_of_faces (enhanced_img : Image) (enh_idx : nat)
    (faces : list face) : list candidate :=
  flat_map
    (fun face_data =>
       match crop_face_3x4 enhanced_img (x face_data) (y face_data)
               (w face_data) (h face_data) with
       | Some face_region =>
           [(face_region, detection_info (method face_data) enh_idx,
             confidence_score enhanced_img (w face_data) (h face_data)
               (method face_data) enh_idx)]
       | None => []
       end)
    faces.

(** [for enh_idx, enhanced_img in enumerate(enhanced_images)] *)
Fixpoint scan_enhanced (enh_idx : nat) (enhanced_images : list Image)
    : result (list candidate) :=
  match enhanced_images with
  | [] => Ok []
  | enhanced_img :: rest =>
      faces <- detect_faces_multiple_methods enhanced_img ;;
      later <- scan_enhanced (S enh_idx) rest ;;
      Ok (candidates_of_faces enhanced_img enh_idx faces ++ later)
  end.

(** [for img_idx, img in enumerate(images)] *)
Fixpoint scan_images (images : list Image) : result (list candidate) :=
  match images with
  | [] => Ok []
  | img :: rest =>
      if is_empty img then scan_images rest
      else
        here <- scan_enhanced 0 (enhance_image_for_detection img) ;;
        later <- scan_images rest ;;
        Ok (here ++ later)
  end.

(** [all_faces.sort(key=lambda x: x[2], reverse=True)]: a stable sort,
      largest key first; an element goes before the first one whose key
      is smaller than its own. *)
Fixpoint insert_by_confidence (c : candidate) (sorted : list candidate)
    : list candidate :=
  match sorted with
  | [] => [c]
  | d :: rest =>
      if flt (confidence_of d) (confidence_of c) then c :: d :: rest
      else d :: insert_by_confidence c rest
  end.

Definition sort_by_confidence (all_faces : list candidate) : list candidate :=
  fold_left (fun sorted c => insert_by_confidence c sorted) all_faces [].

Definition detect_faces_advanced (images : list Image)
    : result (list candidate) :=
  all_faces <- scan_images images ;;
  Ok (sort_by_confidence all_faces).

(** *** [detect_best_photo_or_fallback]

      The two page extractors come from the PDF library; each call of a
      collaborator is recorded, in order. *)
Variable Pdf : Type.
Variable extract_faces_from_rendered_pages : Pdf -> result (list Image).
Variable extract_full_page_images : Pdf -> result (list Image).

Inductive call : Type :=
| DetectFaces (images : list Image)
| RenderPages (pdf_path : Pdf)
| FullPages (pdf_path : Pdf).

(** A computation that records its calls and may raise. *)
Definition io (A : Type) : Type := list call -> list call * result A.

Definition ret {A} (a : A) : io A := fun log => (log, Ok a).

Definition io_bind {A B} (m : io A) (k : A -> io B) : io B :=
  fun log =>
    match m log with
    | (log', Ok a) => k a log'
    | (log', Raise e) => (log', Raise e)
    end.

(** [try: body  except Exception as e: handler e] *)
Definition try_except {A} (body : io A) (handler : pyexc -> io A) : io A :=
  fun log =>
    match body log with
    | (log', Ok a) => (log', Ok a)
    | (log', Raise e) => handler e log'
    end.

Definition invoke {A} (c : call) (r : result A) : io A :=
  fun log => (log ++ [c], r).

Definition photo : Type := option Image * str.

(** The second tier, inside its [try]: [Some] is a [return]. *)
Definition rendered_tier (pdf_path : Pdf) : io (option photo) :=
  io_bind (invoke (RenderPages pdf_path)
                  (extract_faces_from_rendered_pages pdf_path))
    (fun rendered_images =>
       match rendered_images with
       | [] => ret None
       | _ =>
           io_bind (invoke (DetectFaces rendered_images)
                           (detect_faces_advanced rendered_images))
             (fun rendered_faces =>
                match rendered_faces with
                | (best_face, method, confidence) :: _ =>
                    ret (Some (Some best_face, lit "face_rendered_" ++ method))
                | [] => ret None
                end)
       end).

(** The third tier, inside its [try]. *)
Definition full_page_tier (pdf_path : Pdf) : io (option photo) :=
  io_bind (invoke (FullPages pdf_path) (extract_full_page_images pdf_path))
    (fun page_images =>
       match page_images with
       | best_page :: _ => ret (Some (Some best_page, lit "full_document"))
       | [] => ret None
       end).

Definition detect_best_photo_or_fallback (images : list Image)
    (pdf_path : Pdf) : io photo :=
  io_bind (invoke (DetectFaces images) (detect_faces_advanced images))
    (fun faces_detected =>
       match faces_detected with
       | (best_face, method, confidence) :: _ =>
           ret (Some best_face, lit "face_detected_" ++ method)
       | [] =>
           io_bind (try_except (rendered_tier pdf_path) (fun e => ret None))
             (fun second =>
                match second with
                | Some found => ret found
                | None =>
                    io_bind (try_except (full_page_tier pdf_path)
                                        (fun e => ret None))
                      (fun third =>
                         match third with
                         | Some found => ret found
                         | None => ret (None, lit "none")
                         end)
                end)
       end).

End Detector.

(** *** The page and image extractors

      The PDF library is a parameter: a document has a number of pages;
      loading a page, rendering it, listing and reading its images and
      decoding a pixmap may each raise. *)

(** What the body of a loop did with one element. *)
Inductive step (A : Type) : Type :=
| Continue            (* the [continue] statement *)
| Nothing             (* the body ended without appending *)
| Append (a : A).     (* the body appended *)
Arguments Continue {A}.
Arguments Nothing {A}.
Arguments Append {A} a.

Section PdfExtraction.

Variable Image : Type.
Variable Pdf : Type.
Variable Doc : Type.
Variable Page : Type.
Variable Pixmap : Type.
Variable Xref : Type.

(** [fitz.open(pdf_path)], [len(doc)], [doc.load_page(page_num)] *)
Variable fitz_open : Pdf -> result Doc.
Variable page_count : Doc -> nat.
Variable load_page : Doc -> nat -> result Page.
(** [page.get_pixmap(matrix=fitz.Matrix(r, r))] at the resolution
      [max_render_resolution] *)
Variable get_pixmap : Page -> result Pixmap.
Variable width : Pixmap -> Z.
Variable height : Pixmap -> Z.
(** [cv2.imdecode(np.frombuffer(pix.tobytes("png"), np.uint8),
      cv2.IMREAD_COLOR)]: [None] when the bytes do not decode *)
Variable decode : Pixmap -> result (option Image).
Variable resize_image_if_needed : Image -> result Image.
(** [page.get_images()], [fitz.Pixmap(doc, xref)], [pix.n - pix.alpha],
      [cv_img.shape] *)
Variable get_images : Page -> result (list Xref).
Variable pixmap_of : Doc -> Xref -> result Pixmap.
Variable colour_channels : Pixmap -> Z.
Variable shape : Image -> Z * Z.

(** The body of the loop of [extract_faces_from_rendered_pages], up to
      the [append]. *)
Definition render_page (doc : Doc) (page_num : nat) : result (step Image) :=
  page <- load_page doc page_num ;;
  pix <- get_pixmap page ;;
  if 6000000 <? width pix * height pix then Ok Continue
  else
    cv_img <- decode pix ;;
    match cv_img with
    | Some cv_img => resized <- resize_image_if_needed cv_img ;;
                     Ok (Append resized)
    | None => Ok Nothing
    end.

(** The loop; an exception ends it with the faces found so far (the
      [except] clause of the function). *)
Fixpoint render_pages (doc : Doc) (page_nums : list nat) (faces : list Image)
    : list Image :=
  match page_nums with
  | [] => faces
  | page_num :: rest =>
      match render_page doc page_num with
      | Raise _ => faces
      | Ok Continue => render_pages doc rest faces
      | Ok Nothing =>
          if (3 <=? length faces)%nat then faces
          else render_pages doc rest faces
      | Ok (Append cv_img) =>
          let faces := faces ++ [cv_img] in
          if (3 <=? length faces)%nat then faces
          else render_pages doc rest faces
      end
  end.

Definition extract_faces_from_rendered_pages (pdf_path : Pdf) : list Image :=
  match fitz_open pdf_path with
  | Ok doc => render_pages doc (range (Nat.min (page_count doc) 3)) []
  | Raise _ => []
  end.

(** The inner [try] of [extract_images_from_pdf], up to the [append]. *)
Definition read_image (doc : Doc) (xref : Xref) : result (step Image) :=
  pix <- pixmap_of doc xref ;;
  if 4000000 <? width pix * height pix then Ok Continue
  else if colour_channels pix <? 4 then
    cv_img <- decode pix ;;
    match cv_img with
    | Some cv_img =>
        if (50 <? fst (shape cv_img)) && (50 <? snd (shape cv_img)) then
          resized <- resize_image_if_needed cv_img ;;
          Ok (Append resized)
        else Ok Nothing
    | None => Ok Nothing
    end
  else Ok Nothing.

(** The loop over the images of one page; the flag tells whether the loop
      was left by [break]. *)
Fixpoint read_images (doc : Doc) (image_list : list Xref)
    (images : list Image) : list Image :=
  match image_list with
  | [] => images
  | img :: rest =>
      match read_image doc img with
      | Raise _ | Ok Continue => read_images doc rest images
      | Ok Nothing =>
          if (10 <=? length images)%nat then images
          else read_images doc rest images
      | Ok (Append cv_img) =>
          let images := images ++ [cv_img] in
          if (10 <=? length images)%nat then images
          else read_images doc rest images
      end
  end.

Fixpoint read_pages (doc : Doc) (page_nums : list nat) (images : list Image)
    : list Image :=
  match page_nums with
  | [] => images
  | page_num :: rest =>
      match (page <- load_page doc page_num ;; get_images page) with
      | Raise _ => images
      | Ok image_list =>
          let images := read_images doc image_list images in
          if (10 <=? length images)%nat then images
          else read_pages doc rest images
      end
  end.

Definition extract_images_from_pdf (pdf_path : Pdf) : list Image :=
  match fitz_open pdf_path with
  | Ok doc => read_pages doc (range (Nat.min (page_count doc) 5)) []
  | Raise _ => []
  end.

End PdfExtraction.

End Advanced.

(** ** The text strategies of src/document_processor_robust.py *)

Module RobustText.

(** The entries of [pdf_info] that [extract_text_robust] reads. *)
Record pdf_info : Type :=
  { valid : bool; has_text : bool; has_images : bool }.

Inductive strategy : Type := PyMuPDF | OCR | ImagesOCR.

Section Strategies.

Variable Pdf : Type.
Variable check_pdf_validity : Pdf -> pdf_info.
(** The text each strategy has gathered when its loop ends, or the
      exception raised on the way. *)
Variable pymupdf_text : Pdf -> result str.
Variable ocr_text : Pdf -> result str.
Variable images_text : Pdf -> result str.

(** The common end of the three strategies:
      [if text.strip(): return text.lower() else: return ""], and [""]
      from the [except] clause. *)
Definition finish (gathered : result str) : str :=
  match gathered with
  | Ok text => match strip text with [] => [] | _ => str_lower text end
  | Raise _ => []
  end.

Definition extract_text_pymupdf (pdf_path : Pdf) : str :=
  finish (pymupdf_text pdf_path).
Definition extract_text_ocr (pdf_path : Pdf) : str :=
  finish (ocr_text pdf_path).
Definition extract_text_from_images (pdf_path : Pdf) : str :=
  finish (images_text pdf_path).

(** [text and len(text.strip()) > n] *)
Definition significant (n : nat) (text : str) : bool :=
  match text with
  | [] => false
  | _ => (n <? length (strip text))%nat
  end.

(** The strategies tried, in order, and the text returned. *)
Definition extract_text_robust (pdf_path : Pdf) : list strategy * str :=
  let pdf_info := check_pdf_validity pdf_path in
  if negb (valid pdf_info) then ([], [])
  else
    let first :=
      if has_text pdf_info then ([PyMuPDF], extract_text_pymupdf pdf_path)
      else ([], []) in
    if has_text pdf_info && significant 50 (snd first) then first
    else
      let text := extract_text_ocr pdf_path in
      if significant 50 text then (fst first ++ [OCR], text)
      else if has_images pdf_info then
        let text := extract_text_from_images pdf_path in
        if significant 20 text then (fst first ++ [OCR; ImagesOCR], text)
        else (fst first ++ [OCR; ImagesOCR], [])
      else (fst first ++ [OCR], []).

End Strategies.

End RobustText.

(** ** The merge of src/document_processor_improved.py *)

Module Improved.

Definition clean_cpf (cpf : str) : str := strip_non_digits cpf.
Definition validate_cpf : str -> result bool := validate_cpf clean_cpf.

Record info : Type := { nome : str; cpf : str; rg : str }.

(** [structured_data] is a dictionary; [key in structured_data] and
      [structured_data[key]]. *)
Definition lookup (key : str) (structured_data : list (str * str))
    : option str :=
  match List.find (fun kv => str_eqb (fst kv) key) structured_data with
  | Some kv => Some (snd kv)
  | None => None
  end.

(** [for key in possible_keys: if key in structured_data: ...; break] *)
Fixpoint first_present (possible_keys : list str)
    (structured_data : list (str * str)) : option str :=
  match possible_keys with
  | [] => None
  | key :: rest =>
      match lookup key structured_data with
      | Some value => Some value
      | None => first_present rest structured_data
      end
  end.

Definition format_cpf (c : str) : str :=
  slice c 0 3 ++ lit "." ++ slice c 3 6 ++ lit "." ++ slice c 6 9
    ++ lit "-" ++ skipn 9 c.

(** The body of the loop for the field [cpf]. *)
Definition merge_cpf (current : str) (structured_data : list (str * str))
    : result str :=
  match current with
  | _ :: _ => Ok current
  | [] =>
      match first_present [lit "cpf"] structured_data with
      | Some ((_ :: _) as value) =>
          let clean_cpf := strip_non_digits value in
          if (length clean_cpf =? 11)%nat then
            ok <- validate_cpf clean_cpf ;;
            if ok then Ok (format_cpf clean_cpf) else Ok current
          else Ok current
      | _ => Ok current
      end
  end.

(** The body of the loop for the other two fields. *)
Definition merge_field (possible_keys : list str) (current : str)
    (structured_data : list (str * str)) : str :=
  match current with
  | _ :: _ => current
  | [] =>
      match first_present possible_keys structured_data with
      | Some ((_ :: _) as value) => value
      | _ => current
      end
  end.

Definition combine (extracted_info : info)
    (structured_data : list (str * str)) : result info :=
  match structured_data with
  | [] => Ok extracted_info
  | _ =>
      let nome := merge_field [lit "nome"; lit "name"] (nome extracted_info)
                              structured_data in
      cpf <- merge_cpf (cpf extracted_info) structured_data ;;
      let rg := merge_field [lit "rg"; lit "registro geral"; lit "identidade"]
                            (rg extracted_info) structured_data in
      Ok {| nome := nome; cpf := cpf; rg := rg |}
  end.

(** [detect_best_photo]: the image with faces of largest score. *)
Section BestPhoto.

Variable Image : Type.
(** [img is None or img.size == 0] *)
Variable is_empty : Image -> bool.
Variable shape : Image -> Z * Z.
(** [len(faces)] for the faces the cascade finds on the grey image; the
      conversion and the cascade are not guarded. *)
Variable count_faces : Image -> result nat.

Definition score_of (img : Image) (faces : nat) : Z :=
  fst (shape img) * snd (shape img) * Z.of_nat faces.

Fixpoint best_photo_loop (images : list Image) (best_photo : option Image)
    (best_score : Z) : result (option Image) :=
  match images with
  | [] => Ok best_photo
  | img :: rest =>
      if is_empty img then best_photo_loop rest best_photo best_score
      else
        faces <- count_faces img ;;
        if (0 <? faces)%nat then
          let score := score_of img faces in
          if best_score <? score then best_photo_loop rest (Some img) score
          else best_photo_loop rest best_photo best_score
        else best_photo_loop rest best_photo best_score
  end.

Definition detect_best_photo (images : list Image) : result (option Image) :=
  match images with
  | [] => Ok None
  | _ => best_photo_loop images None 0
  end.

End BestPhoto.

(** The crop of a detected face with its margin
      ([extract_faces_from_rendered_pages]; the same lines are in
      [detect_face_in_images] of document_processor_textract.py):
      the new [(x, y, w, h)]. *)
Definition margin : Z := 10.

Definition crop_with_margin (shape : Z * Z) (x y w h : Z) : Z * Z * Z * Z :=
  let x := Z.max 0 (x - margin) in
  let y := Z.max 0 (y - margin) in
  let w := Z.min (snd shape - x) (w + 2 * margin) in
  let h := Z.min (fst shape - y) (h + 2 * margin) in
  (x, y, w, h).

End Improved.

(** ** The name loop of bkp/document_processor_simple.py

    [extract_information] runs [re.findall] with each name pattern and
    takes the first capture that passes its test; the captures of the
    patterns, in order, are the input here. *)

Module Simple.

(** [A-Za-zÀ-ÿ\s] *)
Definition letters_and_space : cls :=
  [Rng 65 90; Rng 97 122; Rng 192 255; Space].

Definition placeholders : list str :=
  [lit "nome completo"; lit "titular"; lit "portador"].

(** The four conditions of the [if]. *)
Definition name_is_valid (nome_clean : str) : bool :=
  (5 <? length nome_clean)%nat
  && (2 <=? length (split nome_clean))%nat
  && negb (existsb is_digit nome_clean)
  && negb (str_in (str_lower nome_clean) placeholders).

(** [for match in matches] *)
Fixpoint first_valid (matches : list str) : str :=
  match matches with
  | [] => []
  | m :: rest =>
      let nome := str_title (strip m) in
      let nome_clean := filter (in_cls no_flags letters_and_space) nome in
      if name_is_valid nome_clean then nome_clean else first_valid rest
  end.

(** [for pattern in self.info_patterns['nome']], left when a name is set *)
Fixpoint extract_nome (captures : list (list str)) : str :=
  match captures with
  | [] => []
  | matches :: rest =>
      match first_valid matches with
      | [] => extract_nome rest
      | nome => nome
      end
  end.

End Simple.

(** * Properties *)

(** ** Strings *)

Lemma str_eqb_eq a b : str_eqb a b = true <-> a = b.
Proof.
  revert b; induction a as [|x a IH]; intros [|y b]; simpl;
    try (split; congruence).
  unfold ascii_eqb. rewrite andb_true_iff, Ascii.eqb_eq, IH.
  split; [intros [-> ->]; reflexivity | intros E; inversion E; auto].
Qed.

Lemma str_eqb_refl a : str_eqb a a = true.
Proof. apply str_eqb_eq; reflexivity. Qed.

Lemma str_eqb_neq a b : str_eqb a b = false <-> a <> b.
Proof.
  rewrite <- str_eqb_eq. destruct (str_eqb a b); split; congruence.
Qed.

Lemma str_in_In s l : str_in s l = true <-> In s l.
Proof.
  unfold str_in. rewrite existsb_exists. split.
  - intros [x [Hx E]]. apply str_eqb_eq in E. subst; assumption.
  - intros H. exists s. split; [assumption | apply str_eqb_refl].
Qed.

(** ** CPFValidator: concrete runs *)

Example valid_111_444_777_35 :
  Robust.validate_cpf (lit "111.444.777-35") = Ok true.
Proof. reflexivity. Qed.

Example valid_123_456_789_09 :
  Robust.validate_cpf (lit "12345678909") = Ok true.
Proof. reflexivity. Qed.

Example invalid_all_equal :
  Robust.validate_cpf (lit "111.111.111-11") = Ok false.
Proof. reflexivity. Qed.

Example invalid_nis_like :
  Robust.validate_cpf (lit "12345678901") = Ok false.
Proof. reflexivity. Qed.

Example bkp_clean_14 :
  Bkp.clean_cpf (lit "200~262106898/76") = lit "26210689876".
Proof. reflexivity. Qed.

Example bkp_clean_12 :
  Bkp.clean_cpf (lit "111.444.777-359") = lit "11144477735".
Proof. reflexivity. Qed.

(** ** CPFValidator: the checksum *)

Lemma code_inj a b : code a = code b -> a = b.
Proof.
  unfold code. intros H.
  rewrite <- (ascii_nat_embedding a), <- (ascii_nat_embedding b).
  now rewrite H.
Qed.

Lemma digit_val_inj a b : digit_val a = digit_val b -> a = b.
Proof. unfold digit_val. intros H. apply code_inj. lia. Qed.

Lemma is_digit_range c : is_digit c = true <-> 0 <= digit_val c <= 9.
Proof.
  unfold is_digit, between, digit_val.
  rewrite andb_true_iff, !Nat.leb_le. lia.
Qed.

Lemma py_str_digit d : 0 <= d <= 9 -> py_str d = [digit_char d].
Proof.
  intros H.
  assert (d = 0 \/ d = 1 \/ d = 2 \/ d = 3 \/ d = 4 \/ d = 5 \/ d = 6 \/
          d = 7 \/ d = 8 \/ d = 9) as C by lia.
  repeat (destruct C as [-> | C]; [reflexivity |]). subst; reflexivity.
Qed.

Lemma digit_char_val c : is_digit c = true -> digit_char (digit_val c) = c.
Proof.
  intros H. apply is_digit_range in H.
  unfold digit_char, digit_val in *.
  replace (Z.to_nat (48 + (Z.of_nat (code c) - 48))) with (code c) by lia.
  apply ascii_nat_embedding.
Qed.

Lemma digit_val_char d : 0 <= d <= 9 -> digit_val (digit_char d) = d.
Proof.
  intros H. unfold digit_val, digit_char, code, chr.
  rewrite nat_ascii_embedding by lia. lia.
Qed.

(** [c == str(d)] for a digit character and a digit value. *)
Lemma char_eq_py_str c d :
  0 <= d <= 9 -> str_eqb [c] (py_str d) = Z.eqb (digit_val c) d.
Proof.
  intros Hd. rewrite py_str_digit by assumption.
  destruct (Z.eqb_spec (digit_val c) d) as [E | N].
  - apply str_eqb_eq. f_equal. apply digit_val_inj.
    now rewrite digit_val_char.
  - apply str_eqb_neq. intros E. inversion E; subst.
    now rewrite digit_val_char in N.
Qed.

Lemma check_digit_range t : 0 <= check_digit_of t <= 9.
Proof.
  unfold check_digit_of.
  pose proof (Z.mod_pos_bound t 11 ltac:(lia)).
  destruct (Z.leb_spec 10 (11 - t mod 11)); lia.
Qed.

Lemma sum_gen_digits (d : str) (top : Z) :
  all_digits d ->
  forall n start acc, (start + n <= length d)%nat ->
  sum_gen (fun i => c <- getitem d i ;; v <- py_int c ;;
                    Ok (v * (top - Z.of_nat i))) (seq start n) acc
  = Ok (acc + weighted (firstn n (skipn start (map digit_val d)))
                       (top - Z.of_nat start)).
Proof.
  intros Hd. induction n as [|n IH]; intros start acc Hlen; simpl.
  - f_equal. lia.
  - destruct (nth_error d start) as [c|] eqn:E.
    2:{ apply nth_error_None in E. exfalso. lia. }
    unfold getitem at 1. rewrite E. simpl.
    assert (is_digit c = true) as Hc.
    { unfold all_digits in Hd. rewrite Forall_forall in Hd.
      apply Hd. eapply nth_error_In; eassumption. }
    unfold py_int at 1. rewrite Hc. simpl.
    rewrite IH by lia.
    assert (skipn start (map digit_val d)
            = digit_val c :: skipn (S start) (map digit_val d)) as ->.
    { clear -E. revert d E. induction start as [|s IHs]; intros [|x d] E;
        simpl in *; try discriminate.
      - now inversion E.
      - now apply IHs. }
    cbn [firstn weighted]. f_equal.
    replace (top - Z.of_nat (S start)) with (top - Z.of_nat start - 1) by lia.
    lia.
Qed.

(** The pure reading of [validate_cpf] on an already cleaned string. *)
Definition valid_digits (d : str) : bool :=
  let ds := map digit_val d in
  (length d =? 11)%nat
  && negb (str_eqb d (repeat (nth 0 d "0"%char) 11))
  && (nth 9 ds 0 =? spec_check_digit ds 9)
  && (nth 10 ds 0 =? spec_check_digit ds 10).

Lemma getitem_ok (d : str) (k : nat) :
  (k < length d)%nat -> getitem d k = Ok (nth k d "0"%char).
Proof.
  intros H. unfold getitem.
  now rewrite (nth_error_nth' d "0"%char H).
Qed.

Lemma nth_digit_val (d : str) (k : nat) :
  nth k (map digit_val d) 0 = digit_val (nth k d "0"%char).
Proof. exact (map_nth digit_val d "0"%char k). Qed.

Lemma validate_cpf_pure (clean : str -> str) (s : str) :
  all_digits (clean s) ->
  validate_cpf clean s = Ok (valid_digits (clean s)).
Proof.
  intros Hd. unfold validate_cpf, valid_digits.
  set (d := clean s) in *.
  destruct (Nat.eqb_spec (length d) 11) as [L | L]; [| reflexivity].
  cbn [negb andb].
  rewrite (getitem_ok d 0), (getitem_ok d 9), (getitem_ok d 10) by lia.
  cbn [bind].
  destruct (str_eqb d (repeat (nth 0 d "0"%char) 11)); [reflexivity |].
  cbn [negb andb]. unfold range.
  rewrite (sum_gen_digits d 10 Hd 9 0 0), (sum_gen_digits d 11 Hd 10 0 0)
    by lia.
  cbn [bind skipn].
  rewrite !char_eq_py_str by apply check_digit_range.
  rewrite !nth_digit_val. unfold spec_check_digit, check_digit_of.
  change (Z.of_nat 9 + 1) with 10. change (Z.of_nat 10 + 1) with 11.
  change (10 - Z.of_nat 0) with 10. change (11 - Z.of_nat 0) with 11.
  rewrite !Z.add_0_l.
  destruct (digit_val (nth 9 d "0"%char) =? _); reflexivity.
Qed.

Lemma valid_digits_spec d : valid_digits d = true <-> tax_id_ok d.
Proof.
  unfold valid_digits, tax_id_ok.
  rewrite !andb_true_iff, Nat.eqb_eq, negb_true_iff, str_eqb_neq, !Z.eqb_eq.
  split.
  - intros [[[L N] H9] H10]. repeat split; try assumption.
    + intros c E. apply N. rewrite E at 1.
      destruct d; [discriminate |]. simpl in *.
      injection E as -> _. reflexivity.
    + rewrite <- H9. apply nth_error_nth'. rewrite length_map. lia.
    + rewrite <- H10. apply nth_error_nth'. rewrite length_map. lia.
  - intros (L & N & H9 & H10). repeat split; try assumption.
    + apply N.
    + now apply nth_error_nth.
    + now apply nth_error_nth.
Qed.

Lemma strip_non_digits_all s : all_digits (strip_non_digits s).
Proof.
  unfold all_digits, strip_non_digits. apply Forall_forall.
  intros c H. apply filter_In in H. tauto.
Qed.

Lemma strip_non_digits_id s : all_digits s -> strip_non_digits s = s.
Proof.
  unfold all_digits, strip_non_digits. induction 1 as [|c s Hc _ IH]; simpl.
  - reflexivity.
  - rewrite Hc, IH. reflexivity.
Qed.

Lemma firstn_agree {A} (n : nat) : forall (l l' : list A),
  (forall j, (j < n)%nat -> nth_error l j = nth_error l' j) ->
  firstn n l = firstn n l'.
Proof.
  induction n as [|n IH]; intros l l' H; [reflexivity |].
  pose proof (H 0%nat ltac:(lia)) as H0.
  destruct l as [|x l], l' as [|y l']; simpl in H0; try discriminate;
    [reflexivity |].
  injection H0 as ->. simpl. f_equal. apply IH.
  intros j Hj. apply (H (S j)). lia.
Qed.

Lemma spec_check_digit_agree (ds ds' : list Z) (n : nat) :
  (forall j, (j < n)%nat -> nth_error ds j = nth_error ds' j) ->
  spec_check_digit ds n = spec_check_digit ds' n.
Proof.
  intros H. unfold spec_check_digit. now rewrite (firstn_agree n ds ds' H).
Qed.

Lemma altered_check_digit_invalid (d d' : str) (i : nat) :
  tax_id_ok d -> (i = 9 \/ i = 10)%nat ->
  (forall j, j <> i -> nth_error d' j = nth_error d j) ->
  nth_error d' i <> nth_error d i ->
  ~ tax_id_ok d'.
Proof.
  intros (L & _ & H9 & H10) Hi Hagree Hdiff (L' & _ & H9' & H10').
  assert (forall j, j <> i ->
            nth_error (map digit_val d') j = nth_error (map digit_val d) j)
    as Hm.
  { intros j Hj. now rewrite !nth_error_map, Hagree. }
  assert (nth_error (map digit_val d') i = nth_error (map digit_val d) i)
    as E.
  { destruct Hi as [-> | ->].
    - rewrite H9, H9'. f_equal. apply spec_check_digit_agree.
      intros j Hj. apply Hm. lia.
    - rewrite H10, H10'. f_equal. apply spec_check_digit_agree.
      intros j Hj. apply Hm. lia. }
  apply Hdiff. rewrite !nth_error_map in E.
  destruct (nth_error d' i) as [a|], (nth_error d i) as [b|];
    simpl in E; try discriminate; [| reflexivity].
  injection E as E. f_equal. now apply digit_val_inj.
Qed.

(** C1. [validate_cpf] returns a Boolean on every string (no exception
    escapes), and the Boolean is [true] exactly when the digits left after
    cleaning number 11, are not 11 copies of one digit, and end in the two
    check digits of the weighted-sum rule.  Hence a string whose digits
    differ from those of a valid one in a single check digit (the 10th or
    the 11th digit) is rejected. *)
Theorem validate_cpf_checksum (s : str) :
  (exists b, Robust.validate_cpf s = Ok b /\
             (b = true <-> tax_id_ok (strip_non_digits s)))
  /\
  (forall (s' : str) (i : nat),
      Robust.validate_cpf s = Ok true ->
      (i = 9 \/ i = 10)%nat ->
      (forall j, j <> i ->
         nth_error (strip_non_digits s') j = nth_error (strip_non_digits s) j) ->
      nth_error (strip_non_digits s') i <> nth_error (strip_non_digits s) i ->
      Robust.validate_cpf s' = Ok false).
Proof.
  assert (forall x, Robust.validate_cpf x
                    = Ok (valid_digits (strip_non_digits x))) as P.
  { intros x. apply (validate_cpf_pure Robust.clean_cpf).
    apply strip_non_digits_all. }
  split.
  - exists (valid_digits (strip_non_digits s)). split; [apply P |].
    apply valid_digits_spec.
  - intros s' i V Hi Hagree Hdiff. rewrite P in *. f_equal.
    injection V as V. apply valid_digits_spec in V.
    destruct (valid_digits (strip_non_digits s')) eqn:E; [| reflexivity].
    apply valid_digits_spec in E.
    exfalso. exact (altered_check_digit_invalid _ _ i V Hi Hagree Hdiff E).
Qed.

(** ** CPFValidator: cleaning *)

Lemma all_digits_firstn n s : all_digits s -> all_digits (firstn n s).
Proof.
  unfold all_digits. intros H. rewrite <- (firstn_skipn n s) in H.
  now apply Forall_app in H.
Qed.

Lemma all_digits_skipn n s : all_digits s -> all_digits (skipn n s).
Proof.
  unfold all_digits. intros H. rewrite <- (firstn_skipn n s) in H.
  now apply Forall_app in H.
Qed.

Lemma bkp_clean_digits_short (s : str) :
  all_digits (Bkp.clean_cpf s) /\ (length (Bkp.clean_cpf s) <= 11)%nat.
Proof.
  unfold Bkp.clean_cpf.
  pose proof (strip_non_digits_all s) as Hd.
  destruct (Nat.ltb_spec 11 (length (strip_non_digits s))).
  - destruct (Nat.eqb_spec (length (strip_non_digits s)) 14).
    + unfold last_n. split; [now apply all_digits_skipn |].
      rewrite length_skipn. lia.
    + split; [now apply all_digits_firstn |]. rewrite length_firstn. lia.
  - split; [assumption | lia].
Qed.

(** C2. [clean_cpf] keeps digits only; up to 11 digits it returns them all,
    from exactly 14 digits it returns the trailing 11, from any other
    longer run the leading 11; the result never has more than 11 digits. *)
Theorem clean_cpf_at_most_11 (s : str) :
  let digits := strip_non_digits s in
  all_digits (Bkp.clean_cpf s) /\
  ((length digits <= 11)%nat -> Bkp.clean_cpf s = digits) /\
  (length digits = 14%nat ->
     Bkp.clean_cpf s = skipn 3 digits /\ length (Bkp.clean_cpf s) = 11%nat) /\
  ((11 < length digits)%nat -> length digits <> 14%nat ->
     Bkp.clean_cpf s = firstn 11 digits /\ length (Bkp.clean_cpf s) = 11%nat) /\
  (length (Bkp.clean_cpf s) <= 11)%nat.
Proof.
  intros digits. unfold Bkp.clean_cpf. fold digits.
  pose proof (strip_non_digits_all s) as Hd. fold digits in Hd.
  destruct (Nat.ltb_spec 11 (length digits)) as [Hlong | Hshort].
  - destruct (Nat.eqb_spec (length digits) 14) as [H14 | H14].
    + unfold last_n. rewrite H14. change (14 - 11)%nat with 3%nat.
      assert (length (skipn 3 digits) = 11%nat) as L
        by (rewrite length_skipn; lia).
      split; [now apply all_digits_skipn |].
      split; [intros; lia |].
      split; [intros _; split; [reflexivity | exact L] |].
      split; [intros _ N; contradiction | lia].
    + assert (length (firstn 11 digits) = 11%nat) as L
        by (rewrite length_firstn; lia).
      split; [now apply all_digits_firstn |].
      split; [intros; lia |].
      split; [intros N; contradiction |].
      split; [intros _ _; split; [reflexivity | exact L] | lia].
  - split; [assumption |].
    split; [reflexivity |].
    split; [intros; lia |].
    split; [intros; lia | assumption].
Qed.

Lemma bkp_clean_of_short (d : str) :
  all_digits d -> (length d <= 11)%nat -> Bkp.clean_cpf d = d.
Proof.
  intros Hd Hl. unfold Bkp.clean_cpf.
  rewrite (strip_non_digits_id d Hd).
  destruct (Nat.ltb_spec 11 (length d)); [lia | reflexivity].
Qed.

(** C10. In both versions of the class, cleaning twice is cleaning once,
    and validating a cleaned string gives the result of validating the raw
    string. *)
Theorem clean_idempotent_validate_invariant (s : str) :
  Robust.clean_cpf (Robust.clean_cpf s) = Robust.clean_cpf s /\
  Robust.validate_cpf (Robust.clean_cpf s) = Robust.validate_cpf s /\
  Bkp.clean_cpf (Bkp.clean_cpf s) = Bkp.clean_cpf s /\
  Bkp.validate_cpf (Bkp.clean_cpf s) = Bkp.validate_cpf s.
Proof.
  assert (Robust.clean_cpf (Robust.clean_cpf s) = Robust.clean_cpf s) as R.
  { unfold Robust.clean_cpf. apply strip_non_digits_id.
    apply strip_non_digits_all. }
  assert (Bkp.clean_cpf (Bkp.clean_cpf s) = Bkp.clean_cpf s) as B.
  { pose proof (bkp_clean_digits_short s) as (Hd & Hl).
    now apply bkp_clean_of_short. }
  repeat split; try assumption.
  - unfold Robust.validate_cpf, validate_cpf. now rewrite R.
  - unfold Bkp.validate_cpf, validate_cpf. now rewrite B.
Qed.

(** ** DocumentClassifier *)

Example classify_rg_only :
  identify_document_type (lit "REGISTRO GERAL - Carteira de Identidade RG: 123")
  = Some RG.
Proof. vm_compute. reflexivity. Qed.

Example classify_majority :
  identify_document_type (lit "categoria B validade 2030 passaporte")
  = Some CNH.
Proof. vm_compute. reflexivity. Qed.

Example classify_nothing :
  identify_document_type (lit "lorem ipsum") = None.
Proof. vm_compute. reflexivity. Qed.

Example classify_empty : identify_document_type [] = None.
Proof. reflexivity. Qed.

Lemma scores_of_table (text : str) :
  scores_of (str_lower text)
  = [ (RG, type_score RG text); (CNH, type_score CNH text);
      (PASSAPORTE, type_score PASSAPORTE text) ].
Proof. reflexivity. Qed.

Lemma classify_three (a b c : nat) :
  classify_scores [(RG, a); (CNH, b); (PASSAPORTE, c)]
  = if ((a =? 0) && (b =? 0) && (c =? 0))%nat then None
    else if ((b <=? a) && (c <=? a))%nat then Some RG
    else if (c <=? b)%nat then Some CNH
    else Some PASSAPORTE.
Proof.
  unfold classify_scores, max_value, max_key. cbn [fold_left snd max_from].
  destruct (Nat.eqb_spec a 0), (Nat.eqb_spec b 0), (Nat.eqb_spec c 0);
    cbn [andb];
    destruct (Nat.leb_spec b a), (Nat.leb_spec c a), (Nat.leb_spec c b);
    cbn [andb];
    destruct (Nat.ltb_spec 0 (Nat.max (Nat.max (Nat.max 0 a) b) c));
    destruct (Nat.ltb_spec a b), (Nat.ltb_spec a c), (Nat.ltb_spec b c);
    try reflexivity; try lia.
Qed.

(** The claim as the specification words it fails: a national-ID header
    line that is also a passport signature scores 1 for both types, and the
    classifier answers RG instead of leaving the document unclassified. *)
Lemma classify_tie_is_not_unclassified :
  let text := lit "REP" ++ [chr 218] ++ lit "BLICA FEDERATIVA DO BRASIL" in
  type_score RG text = 1%nat /\
  type_score CNH text = 0%nat /\
  type_score PASSAPORTE text = 1%nat /\
  identify_document_type text = Some RG.
Proof. vm_compute. repeat split; reflexivity. Qed.

(** C3 (amended). The score of a type is the total number of matches of
    its signatures.  The classifier answers a type exactly when the text is
    not empty, that type's score is positive, no type scores more, and
    every type written before it in the table scores strictly less; it
    answers "unclassified" exactly when the text is empty or every score
    is zero.  So a tie for the highest score goes to the type listed
    first. *)
Theorem identify_document_type_first_maximum (text : str) :
  (forall t, identify_document_type text = Some t <->
     text <> [] /\ (0 < type_score t text)%nat /\
     (forall t', (type_score t' text <= type_score t text)%nat) /\
     (forall t', (rank t' < rank t)%nat ->
                 (type_score t' text < type_score t text)%nat)) /\
  (identify_document_type text = None <->
     text = [] \/ forall t, type_score t text = 0%nat).
Proof.
  assert (identify_document_type text
          = match text with
            | [] => None
            | _ => classify_scores [ (RG, type_score RG text);
                                     (CNH, type_score CNH text);
                                     (PASSAPORTE, type_score PASSAPORTE text) ]
            end) as E.
  { destruct text; [reflexivity |]. unfold identify_document_type.
    now rewrite scores_of_table. }
  rewrite E. clear E.
  destruct text as [|c0 text0]; [| set (text := c0 :: text0)].
  - split.
    + intros t. split; [discriminate | intros [H _]; congruence].
    + split; auto.
  - rewrite classify_three.
    set (a := type_score RG text). set (b := type_score CNH text).
    set (c := type_score PASSAPORTE text).
    assert (forall P : doc_type -> Prop,
              (forall t, P t) <-> P RG /\ P CNH /\ P PASSAPORTE) as All.
    { intros P. split; [auto |]. intros (? & ? & ?) []; assumption. }
    split.
    + intros t. rewrite (All (fun t' => (type_score t' text <= _)%nat)).
      rewrite (All (fun t' => (rank t' < rank t)%nat -> _)).
      cbv beta. fold a b c.
      destruct (Nat.eqb_spec a 0), (Nat.eqb_spec b 0), (Nat.eqb_spec c 0);
        cbn [andb];
        destruct (Nat.leb_spec b a), (Nat.leb_spec c a), (Nat.leb_spec c b);
        cbn [andb]; destruct t; fold a b c; cbn [rank];
        (split;
         [ intros Hs; try discriminate Hs; clear Hs;
           (split; [unfold text; discriminate |]); repeat split; intros; lia
         | intros (_ & Hp & (Ha & Hb & Hc) & (Hd & He & Hf));
           try reflexivity; exfalso; lia ]).
    + rewrite (All (fun t => type_score t text = 0%nat)). cbv beta.
      fold a b c.
      destruct (Nat.eqb_spec a 0), (Nat.eqb_spec b 0), (Nat.eqb_spec c 0);
        cbn [andb];
        destruct (Nat.leb_spec b a), (Nat.leb_spec c a), (Nat.leb_spec c b);
        cbn [andb];
        (split;
         [ intros Hs; try discriminate Hs; right; repeat split; assumption
         | intros [Hs | (Ha & Hb & Hc)];
           [discriminate Hs | try reflexivity; exfalso; lia] ]).
Qed.

(** ** FieldExtractor: concrete runs (the cases of bkp/test_cpf_nis_fix.py) *)

Definition nl : str := [chr 10].

Example extract_cpf_and_nis :
  Textract.extract_information_from_text
    (lit "Nome: JOAO DA SILVA SANTOS" ++ nl ++ lit "CPF: 111.444.777-35" ++ nl
       ++ lit "NIS/PIS/PASEP: 12345678901" ++ nl ++ lit "RG: 12.345.678-9")
  = {| Textract.nome := lit "Joao Da Silva Santos Cpf";
       Textract.cpf := lit "111.444.777-35";
       Textract.rg := lit "12.345.678-9" |}.
Proof. vm_compute. reflexivity. Qed.

Example extract_only_nis :
  Textract.cpf (Textract.extract_information_from_text
    (lit "CARTEIRA DE IDENTIDADE" ++ nl ++ lit "Nome: MARIA OLIVEIRA" ++ nl
       ++ lit "NIS: 98765432109" ++ nl ++ lit "RG: 98.765.432-1"))
  = [].
Proof. vm_compute. reflexivity. Qed.

Example extract_cpf_without_context :
  Textract.cpf (Textract.extract_information_from_text
    (lit "DOCUMENTO" ++ nl ++ lit "Numero: 111.444.777-35" ++ nl
       ++ lit "Data: 01/01/2020"))
  = lit "111.444.777-35".
Proof. vm_compute. reflexivity. Qed.

(** ** FieldExtractor: the tax id *)

Lemma fold_left_invariant {A B} (f : A -> B -> A) (P : A -> Prop) :
  (forall a b, P a -> P (f a b)) ->
  forall l a, P a -> P (fold_left f l a).
Proof.
  intros Hf l. induction l as [|b l IH]; intros a Ha; simpl; auto.
Qed.

Lemma cpf_is_valid_iff c :
  Textract.cpf_is_valid c = true <-> Textract.validate_cpf c = Ok true.
Proof.
  unfold Textract.cpf_is_valid.
  destruct (Textract.validate_cpf c) as [b | e]; split; intros H;
    try congruence; try discriminate.
Qed.

(** What every accepted candidate satisfies. *)
Definition good_cpf (nis : list str) (c : str) : Prop :=
  length c = 11%nat /\ ~ In c nis /\ Textract.cpf_is_valid c = true
  /\ all_digits c.

Lemma good_cpf_clean nis m :
  length (Textract.clean_cpf m) = 11%nat ->
  str_in (Textract.clean_cpf m) nis = false ->
  Textract.cpf_is_valid (Textract.clean_cpf m) = true ->
  good_cpf nis (Textract.clean_cpf m).
Proof.
  intros L N V. repeat split; try assumption.
  - intros I. apply str_in_In in I. congruence.
  - apply strip_non_digits_all.
Qed.

Lemma Forall_snoc {A} (P : A -> Prop) l x :
  Forall P l -> P x -> Forall P (l ++ [x]).
Proof. intros Hl Hx. apply Forall_app. split; auto. Qed.

Lemma anchored_step_good nis cands m :
  Forall (good_cpf nis) cands ->
  Forall (good_cpf nis) (Textract.anchored_step nis cands m).
Proof.
  intros H. unfold Textract.anchored_step.
  destruct (Nat.eqb_spec (length (Textract.clean_cpf m)) 11); [| assumption].
  destruct (str_in (Textract.clean_cpf m) nis) eqn:N; [assumption |].
  cbn [negb].
  destruct (Textract.cpf_is_valid (Textract.clean_cpf m)) eqn:V;
    [| assumption].
  apply Forall_snoc; [assumption | now apply good_cpf_clean].
Qed.

Lemma generic_step_good text nis cands m :
  Forall (good_cpf nis) cands ->
  Forall (good_cpf nis) (Textract.generic_step text nis cands m).
Proof.
  intros H. unfold Textract.generic_step.
  destruct (Nat.eqb_spec (length (Textract.clean_cpf m)) 11); [| assumption].
  destruct (str_in (Textract.clean_cpf m) nis) eqn:N; [assumption |].
  cbn [negb].
  destruct (Textract.cpf_is_valid (Textract.clean_cpf m)) eqn:V;
    [| assumption].
  destruct (find text m) as [pos |]; [| assumption].
  cbv zeta.
  destruct (_ && _);
    [apply Forall_snoc; [assumption | now apply good_cpf_clean] |].
  destruct (_ && _);
    [apply Forall_snoc; [assumption | now apply good_cpf_clean] | assumption].
Qed.

Lemma anchored_pass_good patterns fl text nis cands :
  Forall (good_cpf nis) cands ->
  Forall (good_cpf nis) (Textract.anchored_pass patterns fl text nis cands).
Proof.
  unfold Textract.anchored_pass. apply fold_left_invariant.
  intros a p Ha. apply fold_left_invariant; [| assumption].
  intros; now apply anchored_step_good.
Qed.

Lemma generic_pass_good text nis cands :
  Forall (good_cpf nis) cands ->
  Forall (good_cpf nis) (Textract.generic_pass text nis cands).
Proof.
  unfold Textract.generic_pass. apply fold_left_invariant.
  intros a p Ha. apply fold_left_invariant; [| assumption].
  intros; now apply generic_step_good.
Qed.

Lemma cpf_candidates_good text :
  Forall (good_cpf (Textract.nis_pis_numbers text))
         (Textract.cpf_candidates text).
Proof.
  unfold Textract.cpf_candidates. cbv zeta.
  set (nis := Textract.nis_pis_numbers text).
  pose proof (anchored_pass_good Textract.cpf_patterns IGNORECASE text nis []
                (Forall_nil _)) as H1.
  destruct (Textract.anchored_pass Textract.cpf_patterns IGNORECASE text nis [])
    as [|c1 r1]; [| exact H1].
  pose proof (anchored_pass_good Textract.cpf_direct_patterns
                IGNORECASE_MULTILINE text nis [] (Forall_nil _)) as H2.
  destruct (Textract.anchored_pass Textract.cpf_direct_patterns
              IGNORECASE_MULTILINE text nis []) as [|c2 r2]; [| exact H2].
  apply generic_pass_good. constructor.
Qed.

Lemma format_cpf_digits (c : str) :
  length c = 11%nat -> all_digits c ->
  Textract.clean_cpf (Textract.format_cpf c) = c.
Proof.
  intros L Hd.
  do 11 (destruct c as [|? c]; [discriminate L |]).
  destruct c; [| discriminate L].
  unfold all_digits in Hd.
  repeat match goal with
         | H : Forall _ (_ :: _) |- _ => inversion H; subst; clear H
         end.
  unfold Textract.clean_cpf, strip_non_digits, Textract.format_cpf, slice.
  cbn [firstn skipn Nat.sub app lit list_ascii_of_string filter].
  repeat match goal with
         | H : is_digit ?a = true |- _ => rewrite H; clear H
         end.
  reflexivity.
Qed.




(** *** The unanchored pass as a search

    Only the first candidate is returned, and the first candidate is
    always added while the list is empty, so a tax-id token in the window
    plays no part in which number is returned. *)













(** ** FieldExtractor: the name *)

Example extract_single_word_name :
  Textract.extract_information_from_text (lit "Nome: Fernando")
  = {| Textract.nome := lit "Fernando"; Textract.cpf := [];
       Textract.rg := [] |}.
Proof. vm_compute. reflexivity. Qed.

Example extract_short_name_rejected :
  Textract.nome (Textract.extract_information_from_text (lit "Nome: Ana"))
  = [].
Proof. vm_compute. reflexivity. Qed.

Definition name_char (c : ascii) : Prop :=
  in_cls no_flags Textract.name_tail c = true.

Lemma split_from_chars (P : ascii -> Prop) s :
  forall word, Forall P word -> Forall P s ->
               Forall (Forall P) (split_from word s).
Proof.
  induction s as [|c rest IH]; intros word Hw Hs; cbn [split_from].
  - destruct word; constructor; [| constructor].
    apply Forall_rev. assumption.
  - inversion Hs as [| ? ? Hc Hrest]; subst.
    destruct (is_space c).
    + destruct word as [|w word'].
      * apply IH; [constructor | assumption].
      * constructor; [apply Forall_rev; assumption |].
        apply IH; [constructor | assumption].
    + apply IH; [constructor; assumption | assumption].
Qed.

Lemma join_chars (P : ascii -> Prop) sep parts :
  Forall P sep -> Forall (Forall P) parts -> Forall P (join sep parts).
Proof.
  intros Hsep. induction parts as [|p rest IH]; intros Hp; cbn [join].
  - constructor.
  - inversion Hp as [| ? ? H1 H2]; subst.
    destruct rest as [|q rest']; [assumption |].
    apply Forall_app. split; [assumption |].
    apply Forall_app. split; [assumption |]. apply IH. assumption.
Qed.

Lemma normalise_name_chars s : Forall name_char (Textract.normalise_name s).
Proof.
  unfold Textract.normalise_name. apply join_chars.
  - repeat constructor.
  - apply split_from_chars; [constructor |].
    unfold Textract.keep_name_chars. apply Forall_forall.
    intros c Hc. apply filter_In in Hc. exact (proj2 Hc).
Qed.

Lemma name_char_not_digit c : name_char c -> isdigit_char c = false.
Proof.
  unfold name_char.
  destruct c as [[] [] [] [] [] [] [] []]; vm_compute; congruence.
Qed.

(** [not nome.isdigit()] never rejects: the cleaned name has no digit. *)
Lemma normalised_name_not_isdigit s :
  str_isdigit (Textract.normalise_name s) = false.
Proof.
  pose proof (normalise_name_chars s) as H.
  destruct (Textract.normalise_name s) as [|c rest]; [reflexivity |].
  inversion H as [| ? ? Hc _]; subst.
  unfold str_isdigit. cbn [forallb].
  rewrite (name_char_not_digit c Hc). reflexivity.
Qed.

Lemma extract_nome_step pattern rest text :
  Textract.extract_nome (pattern :: rest) text =
  match search pattern text IGNORECASE_MULTILINE with
  | Some m =>
      let n := Textract.normalise_name (strip (group1 text m)) in
      if (5 <? length n)%nat then str_title n
      else Textract.extract_nome rest text
  | None => Textract.extract_nome rest text
  end.
Proof.
  cbn [Textract.extract_nome].
  destruct (search pattern text IGNORECASE_MULTILINE) as [m |];
    [| reflexivity].
  cbv zeta. rewrite normalised_name_not_isdigit. cbn [negb].
  rewrite andb_true_r. reflexivity.
Qed.

Lemma extract_nome_accepted patterns text :
  Textract.extract_nome patterns text = [] \/
  exists pattern m,
    In pattern patterns /\
    search pattern text IGNORECASE_MULTILINE = Some m /\
    Textract.extract_nome patterns text
    = str_title (Textract.normalise_name (strip (group1 text m))) /\
    (5 < length (Textract.normalise_name (strip (group1 text m))))%nat.
Proof.
  induction patterns as [|p rest IH]; [now left |].
  rewrite extract_nome_step.
  destruct (search p text IGNORECASE_MULTILINE) as [m |] eqn:S.
  - cbv zeta.
    destruct (Nat.ltb_spec 5
                (length (Textract.normalise_name (strip (group1 text m)))))
      as [L | L].
    + right. exists p, m. repeat split; auto. now left.
    + destruct IH as [E | (q & m' & I & S' & E & L')]; [now left |].
      right. exists q, m'. repeat split; auto. now right.
  - destruct IH as [E | (q & m' & I & S' & E & L')]; [now left |].
    right. exists q, m'. repeat split; auto. now right.
Qed.

(** C6, the code's behaviour against the claim: a one-word capture longer
    than five characters is returned as the name. *)
Lemma single_word_name_is_returned :
  Textract.nome (Textract.extract_information_from_text (lit "Nome: Fernando"))
  = lit "Fernando"
  /\ length (split (lit "Fernando")) = 1%nat.
Proof. vm_compute. split; reflexivity. Qed.

(** C6, as the code has it.  The name the text extractor returns is empty
    or the title-cased form of a capture of one of the name patterns from
    which every character outside the letter class was removed and whose
    white space was collapsed, and whose cleaned length exceeds 5.  The
    length is the whole test: a pattern whose first match cleans to more
    than five characters is accepted whatever its number of words, and
    after a rejected capture the next pattern is tried. *)
Theorem name_accepted_on_length_alone (text : str) :
  let r := Textract.extract_information_from_text text in
  (Textract.nome r = [] \/
   exists pattern m,
     In pattern Textract.nome_patterns /\
     search pattern text IGNORECASE_MULTILINE = Some m /\
     let n := Textract.normalise_name (strip (group1 text m)) in
     Textract.nome r = str_title n /\ (5 < length n)%nat /\
     Forall name_char n) /\
  (forall pattern rest,
     Textract.extract_nome (pattern :: rest) text =
     match search pattern text IGNORECASE_MULTILINE with
     | Some m =>
         let n := Textract.normalise_name (strip (group1 text m)) in
         if (5 <? length n)%nat then str_title n
         else Textract.extract_nome rest text
     | None => Textract.extract_nome rest text
     end).
Proof.
  intros r. split.
  - subst r. unfold Textract.extract_information_from_text.
    cbn [Textract.nome].
    destruct (extract_nome_accepted Textract.nome_patterns text)
      as [E | (p & m & I & S & E & L)]; [now left |].
    right. exists p, m. cbv zeta. repeat split; auto.
    apply normalise_name_chars.
  - intros pattern rest. apply extract_nome_step.
Qed.

(** ** FieldExtractor: structured data and the merge *)

Definition ana_form : list (str * str) := [(lit "Nome", lit "Ana")].

Example forms_reject_short_name :
  Textract.extract_information_from_forms ana_form
  = {| Textract.nome := []; Textract.cpf := []; Textract.rg := [] |}.
Proof. vm_compute. reflexivity. Qed.

Example forms_cpf_with_ocr_noise :
  Textract.cpf (Textract.extract_information_from_forms
                  [(lit "CPF:", lit "lll.444.777/35")])
  = lit "111.444.777-35".
Proof. vm_compute. reflexivity. Qed.

Example forms_cpf_as_written :
  Textract.cpf (Textract.extract_information_from_forms
                  [(lit "C.P.F", lit "111.444.777-35")])
  = lit "111.444.777-35".
Proof. vm_compute. reflexivity. Qed.

Example forms_cpf_excluded_as_nis :
  Textract.cpf (Textract.extract_information_from_forms
                  [(lit "NIS", lit "11144477735");
                   (lit "CPF", lit "11144477735")])
  = [].
Proof. vm_compute. reflexivity. Qed.

Lemma title_from_length s : forall b, length (title_from b s) = length s.
Proof.
  induction s as [|c rest IH]; intros b; simpl; [reflexivity |].
  now rewrite IH.
Qed.

Lemma py_or_nonempty a b : a <> [] -> Textract.py_or a b = a.
Proof. destruct a; [contradiction | reflexivity]. Qed.

Lemma title_long_nonempty n : (5 < length n)%nat -> str_title n <> [].
Proof.
  intros L E. apply (f_equal (@List.length ascii)) in E.
  unfold str_title in E. rewrite title_from_length in E. simpl in E. lia.
Qed.

Lemma format_cpf_nonempty c : Textract.format_cpf c <> [].
Proof.
  unfold Textract.format_cpf. intros E.
  apply (f_equal (@List.length ascii)) in E.
  rewrite !length_app in E. simpl in E. lia.
Qed.

(** A pair whose structured name the forms extractor accepts. *)
Definition accepted_name (kv : str * str) : bool :=
  Textract.key_matches Textract.nome_keys (fst kv)
  && (5 <? length (Textract.normalise_name (snd kv)))%nat.

Definition rg_key (kv : str * str) : bool :=
  Textract.key_matches Textract.rg_keys (fst kv).

Lemma forms_nome_find kv :
  Textract.forms_nome kv =
  match List.find accepted_name kv with
  | Some (_, value) => str_title (Textract.normalise_name value)
  | None => []
  end.
Proof.
  induction kv as [|[key value] rest IH]; [reflexivity |].
  cbn [Textract.forms_nome List.find]. unfold accepted_name at 1.
  cbn [fst snd].
  destruct (Textract.key_matches Textract.nome_keys key); cbn [andb];
    [| exact IH].
  cbv zeta.
  destruct (5 <? length (Textract.normalise_name value))%nat;
    [reflexivity | exact IH].
Qed.

Lemma forms_rg_find kv :
  Textract.forms_rg kv =
  match List.find rg_key kv with
  | Some (_, value) => strip value
  | None => []
  end.
Proof.
  induction kv as [|[key value] rest IH]; [reflexivity |].
  cbn [Textract.forms_rg List.find]. unfold rg_key at 1. cbn [fst].
  destruct (Textract.key_matches Textract.rg_keys key);
    [reflexivity | exact IH].
Qed.

Lemma accept_cpf_some nis c formatted :
  Textract.accept_cpf nis c = Some formatted ->
  formatted = Textract.format_cpf c /\ length c = 11%nat /\ ~ In c nis /\
  Textract.validate_cpf c = Ok true.
Proof.
  unfold Textract.accept_cpf.
  destruct (Nat.eqb_spec (length c) 11) as [L | L]; [| discriminate].
  destruct (str_in c nis) eqn:N; cbn [negb]; [discriminate |].
  destruct (Textract.cpf_is_valid c) eqn:V; [| discriminate].
  intros E. injection E as <-. repeat split; auto.
  - intros I. apply str_in_In in I. congruence.
  - now apply cpf_is_valid_iff.
Qed.

(** Where a structured tax id comes from: the 11 digits found in the value
    after the substitutions, or the digits of a formatted number found in
    the value as written. *)
Definition structured_cpf_source (value c : str) : Prop :=
  (exists m, search Textract.eleven_digits (Textract.fix_ocr value) no_flags
             = Some m
             /\ c = group0 (Textract.fix_ocr value) m)
  \/
  (exists m, search Textract.cpf_traditional value no_flags = Some m
             /\ c = Textract.clean_cpf (group0 value m)).

Lemma forms_cpf_accepted nis kv :
  Textract.forms_cpf nis kv = [] \/
  exists key value c,
    In (key, value) kv /\
    Textract.key_matches Textract.cpf_keys key = true /\
    structured_cpf_source value c /\
    length c = 11%nat /\ ~ In c nis /\
    Textract.validate_cpf c = Ok true /\
    Textract.forms_cpf nis kv = Textract.format_cpf c.
Proof.
  induction kv as [|[key value] rest IH]; [now left |].
  cbn [Textract.forms_cpf].
  assert (Textract.forms_cpf nis rest = [] \/
          exists key0 value0 c,
            In (key0, value0) ((key, value) :: rest) /\
            Textract.key_matches Textract.cpf_keys key0 = true /\
            structured_cpf_source value0 c /\
            length c = 11%nat /\ ~ In c nis /\
            Textract.validate_cpf c = Ok true /\
            Textract.forms_cpf nis rest = Textract.format_cpf c) as Rest.
  { destruct IH as [E | (k & v & c & I & H)]; [now left |].
    right. exists k, v, c. split; [now right | exact H]. }
  destruct (Textract.key_matches Textract.cpf_keys key) eqn:K;
    [| exact Rest].
  destruct (Textract.cpf_after_fix nis value) as [f1 |] eqn:A.
  { right. unfold Textract.cpf_after_fix in A. cbv zeta in A.
    destruct (search Textract.eleven_digits (Textract.fix_ocr value) no_flags)
      as [m |] eqn:S; [| discriminate].
    apply accept_cpf_some in A. destruct A as (-> & L & NI & V).
    exists key, value, (group0 (Textract.fix_ocr value) m).
    repeat split; auto; [now left |]. left. exists m. now split. }
  destruct (Textract.cpf_as_written nis value) as [f2 |] eqn:B;
    [| exact Rest].
  right. unfold Textract.cpf_as_written in B.
  destruct (search Textract.cpf_traditional value no_flags) as [m |] eqn:S;
    [| discriminate].
  apply accept_cpf_some in B. destruct B as (-> & L & NI & V).
  exists key, value, (Textract.clean_cpf (group0 value m)).
  repeat split; auto; [now left |]. right. exists m. now split.
Qed.

(** C5, the code's behaviour against the claim: a structured name under
    the key [Nome] is present, and the result carries the free-text name. *)
Lemma structured_name_not_taken :
  Textract.nome (Textract.extracted_info (lit "Nome: Maria Silva") ana_form)
  = lit "Maria Silva"
  /\ Textract.key_matches Textract.nome_keys (lit "Nome") = true.
Proof. vm_compute. split; reflexivity. Qed.

(** C5, as the code has it.  For each field the merged result is the value
    of the forms extractor when that is non-empty, else the free-text one.
    The forms extractor yields a name only from the first pair with a name
    key whose cleaned value is longer than 5 characters; an id number from
    the first pair with an id-number key, stripped (when that is empty the
    free-text value stands); a tax id only from a pair with a tax-id key
    whose 11 digits validate and are not a structured welfare number. *)
Theorem structured_value_when_accepted
    (text : str) (key_value_pairs : list (str * str)) :
  let f := Textract.extract_information_from_forms key_value_pairs in
  let t := Textract.extract_information_from_text text in
  let r := Textract.extracted_info text key_value_pairs in
  Textract.nome r
  = match List.find accepted_name key_value_pairs with
    | Some (_, value) => str_title (Textract.normalise_name value)
    | None => Textract.nome t
    end
  /\
  Textract.rg r
  = match List.find rg_key key_value_pairs with
    | Some (_, value) => Textract.py_or (strip value) (Textract.rg t)
    | None => Textract.rg t
    end
  /\
  ((Textract.cpf f = [] /\ Textract.cpf r = Textract.cpf t) \/
   exists key value c,
     In (key, value) key_value_pairs /\
     Textract.key_matches Textract.cpf_keys key = true /\
     structured_cpf_source value c /\
     length c = 11%nat /\
     ~ In c (Textract.forms_nis_pis_numbers key_value_pairs) /\
     Textract.validate_cpf c = Ok true /\
     Textract.cpf r = Textract.format_cpf c).
Proof.
  intros f t r. subst f r.
  unfold Textract.extracted_info, Textract.combine,
    Textract.extract_information_from_forms.
  cbn [Textract.nome Textract.cpf Textract.rg].
  split; [| split].
  - rewrite forms_nome_find.
    destruct (List.find accepted_name key_value_pairs) as [[key value] |] eqn:F;
      [| reflexivity].
    apply find_some in F. destruct F as [_ A].
    unfold accepted_name in A. cbn [fst snd] in A.
    apply andb_true_iff in A. destruct A as [_ L].
    apply Nat.ltb_lt in L.
    apply py_or_nonempty. now apply title_long_nonempty.
  - rewrite forms_rg_find.
    destruct (List.find rg_key key_value_pairs) as [[key value] |];
      reflexivity.
  - destruct (forms_cpf_accepted
                (Textract.forms_nis_pis_numbers key_value_pairs)
                key_value_pairs)
      as [E | (key & value & c & I & K & Src & L & NI & V & E)].
    + left. rewrite E. split; reflexivity.
    + right. exists key, value, c. repeat split; auto.
      rewrite E. apply py_or_nonempty. apply format_cpf_nonempty.
Qed.

(** ** FieldExtractor: the welfare numbers and the merged tax id *)

Lemma filter_all_kept {A} (f : A -> bool) (l : list A) :
  length (filter f l) = length l -> Forall (fun a => f a = true) l.
Proof.
  induction l as [|a l IH]; intros E; [constructor |].
  cbn [filter] in E. destruct (f a) eqn:Fa.
  - constructor; [assumption |]. apply IH. simpl in E. lia.
  - pose proof (filter_length_le f l). simpl in E. lia.
Qed.


(** ** FaceCandidateDetector: deduplication *)

Definition box (x y w h : Z) : Advanced.face :=
  {| Advanced.x := x; Advanced.y := y; Advanced.w := w; Advanced.h := h;
     Advanced.method := lit "frontal_default" |}.

Example dedup_overlapping :
  Advanced.remove_duplicate_faces [box 0 0 10 10; box 2 2 10 10]
  = [box 0 0 10 10].
Proof. vm_compute. reflexivity. Qed.

Example dedup_half_is_kept :
  Advanced.remove_duplicate_faces [box 0 0 10 10; box 5 0 10 10]
  = [box 0 0 10 10; box 5 0 10 10].
Proof. vm_compute. reflexivity. Qed.

Example dedup_disjoint :
  Advanced.remove_duplicate_faces
    [box 0 0 10 10; box 20 0 10 10; box 1 1 10 10; box 21 1 10 10]
  = [box 0 0 10 10; box 20 0 10 10].
Proof. vm_compute. reflexivity. Qed.

(** The test on rationals is a test on integers. *)
Lemma too_close_Z a b :
  Advanced.too_close a b
  = (Z.min (Advanced.area a) (Advanced.area b)
     <? 2 * Advanced.overlap_area a b).
Proof.
  unfold Advanced.too_close.
  set (o := Advanced.overlap_area a b).
  set (m := Z.min (Advanced.area a) (Advanced.area b)).
  assert (Qle (inject_Z o) ((1 # 2) * inject_Z m) <-> 2 * o <= m) as Half.
  { unfold Qle, Qmult, inject_Z. cbn [Qnum Qden].
    rewrite Pos.mul_1_r, Z.mul_1_l. lia. }
  destruct (Z.ltb_spec m (2 * o)) as [L | L].
  - apply negb_true_iff. apply not_true_is_false. intros Hq.
    apply Qle_bool_iff, Half in Hq. lia.
  - apply negb_false_iff. apply Qle_bool_iff, Half. lia.
Qed.

Lemma too_close_Q a b :
  Advanced.too_close a b = true <->
  ((1 # 2) * inject_Z (Z.min (Advanced.area a) (Advanced.area b))
   < inject_Z (Advanced.overlap_area a b))%Q.
Proof.
  unfold Advanced.too_close. rewrite negb_true_iff.
  split.
  - intros H. apply Qnot_le_lt. intros Hle.
    apply Qle_bool_iff in Hle. congruence.
  - intros H. apply not_true_is_false. intros Hle.
    apply Qle_bool_iff in Hle. apply Qlt_not_le in H. contradiction.
Qed.

Lemma overlap_area_sym a b :
  Advanced.overlap_area a b = Advanced.overlap_area b a.
Proof.
  unfold Advanced.overlap_area. cbv zeta.
  rewrite (Z.min_comm (Advanced.x a + Advanced.w a)),
          (Z.max_comm (Advanced.x a)),
          (Z.min_comm (Advanced.y a + Advanced.h a)),
          (Z.max_comm (Advanced.y a)).
  reflexivity.
Qed.

Lemma too_close_sym a b : Advanced.too_close a b = Advanced.too_close b a.
Proof.
  rewrite !too_close_Z, overlap_area_sym, Z.min_comm. reflexivity.
Qed.

(** [kept] is [faces] with some elements left out, in the same order. *)
Inductive kept_from {A : Type} : list A -> list A -> Prop :=
| kept_nil : kept_from [] []
| kept_take a kept faces : kept_from kept faces -> kept_from (a :: kept) (a :: faces)
| kept_drop a kept faces : kept_from kept faces -> kept_from kept (a :: faces).

Lemma kept_from_refl {A} (l : list A) : kept_from l l.
Proof. induction l; constructor; assumption. Qed.

Lemma kept_from_nil {A} (l : list A) : kept_from [] l.
Proof. induction l; constructor; assumption. Qed.

(** No kept face is too close to a face kept before it. *)
Definition apart (earlier later : Advanced.face) : Prop :=
  Advanced.too_close later earlier = false.

Lemma ForallOrdPairs_snoc {A} (R : A -> A -> Prop) l a :
  ForallOrdPairs R l -> Forall (fun b => R b a) l ->
  ForallOrdPairs R (l ++ [a]).
Proof.
  induction 1 as [| b l Hb Hl IH]; intros Ha; simpl.
  - constructor; constructor.
  - inversion Ha as [| ? ? Hba Hla]; subst.
    constructor; [| apply IH; assumption].
    apply Forall_app. split; [assumption |]. constructor; [assumption | constructor].
Qed.

Lemma unique_loop_spec faces :
  forall unique_faces,
    ForallOrdPairs apart unique_faces ->
    exists kept,
      Advanced.unique_loop faces unique_faces = unique_faces ++ kept /\
      kept_from kept faces /\
      ForallOrdPairs apart (unique_faces ++ kept) /\
      (forall f, In f faces ->
         In f kept \/
         exists u, In u (unique_faces ++ kept) /\
                   Advanced.too_close f u = true).
Proof.
  induction faces as [|f rest IH]; intros unique_faces Hu.
  - exists []. rewrite app_nil_r.
    split; [reflexivity |]. split; [constructor |]. split; [assumption |].
    intros f [].
  - cbn [Advanced.unique_loop]. cbv zeta.
    destruct (existsb (Advanced.too_close f) unique_faces) eqn:E.
    + destruct (IH unique_faces Hu) as (kept & Eq & Sub & Pairs & Cover).
      exists kept.
      split; [assumption |]. split; [now constructor |].
      split; [assumption |].
      intros g [<- | Hg]; [| now apply Cover].
      right. apply existsb_exists in E. destruct E as (u & Iu & Tu).
      exists u. split; [apply in_or_app; now left | assumption].
    + assert (ForallOrdPairs apart (unique_faces ++ [f])) as Hu'.
      { apply ForallOrdPairs_snoc; [assumption |].
        apply Forall_forall. intros u Iu. unfold apart.
        destruct (Advanced.too_close f u) eqn:T; [| reflexivity].
        assert (existsb (Advanced.too_close f) unique_faces = true)
          by (apply existsb_exists; eauto).
        congruence. }
      destruct (IH (unique_faces ++ [f]) Hu')
        as (kept & Eq & Sub & Pairs & Cover).
      exists (f :: kept). rewrite <- app_assoc in Eq, Pairs, Cover.
      split; [assumption |]. split; [now constructor |].
      split; [assumption |].
      intros g [<- | Hg]; [left; now left |].
      destruct (Cover g Hg) as [Ik | Hex]; [left; now right | now right].
Qed.

Lemma remove_duplicate_faces_spec faces :
  let kept := Advanced.remove_duplicate_faces faces in
  kept_from kept faces /\
  ForallOrdPairs apart kept /\
  (forall f, In f faces ->
     In f kept \/ exists u, In u kept /\ Advanced.too_close f u = true).
Proof.
  cbv zeta. unfold Advanced.remove_duplicate_faces.
  destruct (Nat.leb_spec (length faces) 1) as [L | L].
  - split; [apply kept_from_refl |]. split.
    + destruct faces as [|a [|b rest]]; simpl in L; try lia;
        repeat constructor.
    + intros f Hf. now left.
  - destruct (unique_loop_spec faces [] (FOP_nil _))
      as (kept & Eq & Sub & Pairs & Cover).
    simpl in Eq, Pairs, Cover. rewrite Eq.
    split; [assumption |]. split; assumption.
Qed.

Lemma remove_duplicate_faces_head f rest :
  exists kept, Advanced.remove_duplicate_faces (f :: rest) = f :: kept.
Proof.
  unfold Advanced.remove_duplicate_faces.
  destruct (Nat.leb_spec (length (f :: rest)) 1) as [L | L].
  - exists rest. reflexivity.
  - cbn [Advanced.unique_loop existsb]. cbv zeta.
    destruct (unique_loop_spec rest ([] ++ [f])) as (kept & Eq & _).
    { repeat constructor. }
    exists kept. rewrite Eq. reflexivity.
Qed.

Lemma unique_loop_app before :
  forall after unique_faces,
    Advanced.unique_loop (before ++ after) unique_faces
    = Advanced.unique_loop after (Advanced.unique_loop before unique_faces).
Proof.
  induction before as [|f rest IH]; intros after u; [reflexivity |].
  cbn [app Advanced.unique_loop]. cbv zeta.
  destruct (existsb (Advanced.too_close f) u); apply IH.
Qed.

Lemma remove_duplicate_faces_loop faces :
  Advanced.remove_duplicate_faces faces = Advanced.unique_loop faces [].
Proof.
  unfold Advanced.remove_duplicate_faces.
  destruct faces as [|a [|b rest]]; reflexivity.
Qed.

Lemma remove_duplicate_faces_snoc before f :
  Advanced.remove_duplicate_faces (before ++ [f])
  = if existsb (Advanced.too_close f) (Advanced.remove_duplicate_faces before)
    then Advanced.remove_duplicate_faces before
    else Advanced.remove_duplicate_faces before ++ [f].
Proof.
  rewrite !remove_duplicate_faces_loop, unique_loop_app.
  cbn [Advanced.unique_loop]. cbv zeta.
  destruct (existsb (Advanced.too_close f) (Advanced.unique_loop before []));
    reflexivity.
Qed.

Lemma remove_duplicate_faces_at before f after :
  exists later,
    Advanced.remove_duplicate_faces (before ++ f :: after)
    = Advanced.remove_duplicate_faces before
        ++ (if existsb (Advanced.too_close f)
                       (Advanced.remove_duplicate_faces before)
            then [] else [f])
        ++ later
    /\ kept_from later after.
Proof.
  destruct (remove_duplicate_faces_spec before) as (_ & Pairs & _).
  rewrite (remove_duplicate_faces_loop (before ++ f :: after)),
    unique_loop_app.
  rewrite (remove_duplicate_faces_loop before) in *.
  set (k := Advanced.unique_loop before []) in *.
  cbn [Advanced.unique_loop]. cbv zeta.
  destruct (existsb (Advanced.too_close f) k) eqn:E.
  - destruct (unique_loop_spec after k Pairs) as (later & Eq & Sub & _).
    exists later. split; [exact Eq | exact Sub].
  - assert (ForallOrdPairs apart (k ++ [f])) as Pairs'.
    { apply ForallOrdPairs_snoc; [assumption |].
      apply Forall_forall. intros u Iu. unfold apart.
      destruct (Advanced.too_close f u) eqn:T; [| reflexivity].
      assert (existsb (Advanced.too_close f) k = true)
        by (apply existsb_exists; eauto).
      congruence. }
    destruct (unique_loop_spec after (k ++ [f]) Pairs')
      as (later & Eq & Sub & _).
    exists later. rewrite Eq, <- app_assoc. split; [reflexivity | exact Sub].
Qed.

(** C7. Two detections are judged the same face exactly when their
    intersection area exceeds half of the smaller of the two areas.  The
    faces kept are a subsequence of the input that starts with the first
    detection; no kept face is too close to one kept before it; every
    detection left out is too close to a kept one.  Of two detections the
    second is dropped exactly when it is too close to the first.  At
    every position of the input the first seen wins: the faces kept from
    the detections before it are those kept from that prefix alone, and
    the detection itself is kept exactly when it is too close to none of
    them -- which, with the empty case, determines the result. *)
Theorem duplicate_faces_first_seen_survives (faces : list Advanced.face) :
  let kept := Advanced.remove_duplicate_faces faces in
  (forall a b,
     Advanced.too_close a b = true <->
     ((1 # 2) * inject_Z (Z.min (Advanced.area a) (Advanced.area b))
      < inject_Z (Advanced.overlap_area a b))%Q) /\
  kept_from kept faces /\
  hd_error kept = hd_error faces /\
  ForallOrdPairs apart kept /\
  (forall f, In f faces ->
     In f kept \/ exists u, In u kept /\ Advanced.too_close f u = true) /\
  (forall a b,
     Advanced.remove_duplicate_faces [a; b]
     = if Advanced.too_close b a then [a] else [a; b]) /\
  (forall before f after,
     faces = before ++ f :: after ->
     exists later,
       kept = Advanced.remove_duplicate_faces before
                ++ (if existsb (Advanced.too_close f)
                               (Advanced.remove_duplicate_faces before)
                    then [] else [f])
                ++ later
       /\ kept_from later after) /\
  Advanced.remove_duplicate_faces [] = [] /\
  (forall before f,
     Advanced.remove_duplicate_faces (before ++ [f])
     = if existsb (Advanced.too_close f)
                  (Advanced.remove_duplicate_faces before)
       then Advanced.remove_duplicate_faces before
       else Advanced.remove_duplicate_faces before ++ [f]).
Proof.
  cbv zeta.
  destruct (remove_duplicate_faces_spec faces) as (Sub & Pairs & Cover).
  split; [intros a b; apply too_close_Q |].
  split; [exact Sub |].
  split.
  { destruct faces as [|f rest]; [reflexivity |].
    destruct (remove_duplicate_faces_head f rest) as (kept & ->).
    reflexivity. }
  split; [exact Pairs |].
  split; [exact Cover |].
  split.
  { intros a b. unfold Advanced.remove_duplicate_faces.
    cbn [length Nat.leb Advanced.unique_loop existsb app]. cbv zeta.
    rewrite orb_false_r.
    destruct (Advanced.too_close b a); reflexivity. }
  split.
  { intros before f after ->. apply remove_duplicate_faces_at. }
  split; [reflexivity |].
  apply remove_duplicate_faces_snoc.
Qed.

Definition face_a : Advanced.face := box 0 0 10 10.
Definition face_b : Advanced.face := box 20 0 10 10.
Definition face_c : Advanced.face := box 21 1 10 10.

Example dedup_keeps_earlier_duplicate :
  Advanced.remove_duplicate_faces [face_a; face_b; face_c] = [face_a; face_b].
Proof. vm_compute. reflexivity. Qed.

(** ** FaceCandidateDetector: confidence and order *)

Section DetectorProperties.

Variable Image : Type.
Variable is_empty : Image -> bool.
Variable shape : Image -> Z * Z.
Variable to_gray : Image -> result Image.
Variable loaded : str -> bool.
Variable detectMultiScale : str -> Image -> result (list (Z * Z * Z * Z)).
Variable enhanced_versions : Image -> list Image.
Variable crop_face_3x4 : Image -> Z -> Z -> Z -> Z -> option Image.
Variable float : Type.
Variable true_div : Z -> Z -> float.
Variable fmul : float -> float -> float.
Variable f1_2 : float.
Variable f1_1 : float.
Variable flt : float -> float -> bool.
Variable Pdf : Type.
Variable extract_faces_from_rendered_pages : Pdf -> result (list Image).
Variable extract_full_page_images : Pdf -> result (list Image).

Local Abbreviation candidate := (Advanced.candidate Image float).
Local Abbreviation confidence_of := (Advanced.confidence_of Image float).
Local Abbreviation confidence_score :=
  (Advanced.confidence_score Image shape float true_div fmul f1_2 f1_1).
Local Abbreviation detect_faces_multiple_methods :=
  (Advanced.detect_faces_multiple_methods Image is_empty to_gray loaded
     detectMultiScale).
Local Abbreviation enhance_image_for_detection :=
  (Advanced.enhance_image_for_detection Image enhanced_versions).
Local Abbreviation candidates_of_faces :=
  (Advanced.candidates_of_faces Image shape crop_face_3x4 float true_div fmul
     f1_2 f1_1).
Local Abbreviation scan_enhanced :=
  (Advanced.scan_enhanced Image is_empty shape to_gray loaded detectMultiScale
     crop_face_3x4 float true_div fmul f1_2 f1_1).
Local Abbreviation scan_images :=
  (Advanced.scan_images Image is_empty shape to_gray loaded detectMultiScale
     enhanced_versions crop_face_3x4 float true_div fmul f1_2 f1_1).
Local Abbreviation insert_by_confidence :=
  (Advanced.insert_by_confidence Image float flt).
Local Abbreviation sort_by_confidence :=
  (Advanced.sort_by_confidence Image float flt).
Local Abbreviation detect_faces_advanced :=
  (Advanced.detect_faces_advanced Image is_empty shape to_gray loaded
     detectMultiScale enhanced_versions crop_face_3x4 float true_div fmul
     f1_2 f1_1 flt).
Local Abbreviation detect_best_photo_or_fallback :=
  (Advanced.detect_best_photo_or_fallback Image is_empty shape to_gray loaded
     detectMultiScale enhanced_versions crop_face_3x4 float true_div fmul
     f1_2 f1_1 flt Pdf extract_faces_from_rendered_pages
     extract_full_page_images).
Local Abbreviation DetectFaces := (Advanced.DetectFaces Image Pdf).
Local Abbreviation RenderPages := (Advanced.RenderPages Image Pdf).
Local Abbreviation FullPages := (Advanced.FullPages Image Pdf).

(** The claim's bonuses: the factor 1.0 stands where the code leaves the
    score alone. *)
Variable f1_0 : float.

Definition method_bonus (method : str) : float :=
  if str_eqb method (lit "frontal_default") then f1_2
  else if str_eqb method (lit "frontal_alt") then f1_1
  else f1_0.

Definition variant_bonus (enh_idx : nat) : float :=
  match enh_idx with O => f1_1 | S _ => f1_0 end.

(** [a] may stand before [b] in the result: not [a < b]. *)
Definition not_below (a b : candidate) : Prop :=
  flt (confidence_of a) (confidence_of b) = false.

(** On numbers that are not NaN, [<] is a strict weak order and 1.0 is
    neutral. *)
Hypothesis fmul_one : forall v, fmul v f1_0 = v.
Hypothesis flt_asym : forall a b, flt a b = true -> flt b a = false.
Hypothesis flt_negtrans :
  forall a b c, flt a b = false -> flt b c = false -> flt a c = false.

Lemma confidence_score_formula enhanced_img w h method enh_idx :
  confidence_score enhanced_img w h method enh_idx
  = fmul (fmul (true_div (w * h)
                         (fst (shape enhanced_img) * snd (shape enhanced_img)))
               (method_bonus method))
         (variant_bonus enh_idx).
Proof.
  unfold Advanced.confidence_score, method_bonus, variant_bonus. cbv zeta.
  destruct (str_eqb method (lit "frontal_default"));
    [| destruct (str_eqb method (lit "frontal_alt"))];
    destruct enh_idx; cbn [Nat.eqb]; rewrite ?fmul_one; reflexivity.
Qed.

Lemma insert_by_confidence_perm c sorted :
  Permutation (c :: sorted) (insert_by_confidence c sorted).
Proof.
  induction sorted as [|d rest IH]; cbn [Advanced.insert_by_confidence].
  - reflexivity.
  - destruct (flt (confidence_of d) (confidence_of c)); [reflexivity |].
    rewrite perm_swap. now constructor.
Qed.

Lemma insert_by_confidence_sorted c sorted :
  StronglySorted not_below sorted ->
  StronglySorted not_below (insert_by_confidence c sorted).
Proof.
  induction 1 as [| d rest Hs IH Hd]; cbn [Advanced.insert_by_confidence].
  - repeat constructor.
  - destruct (flt (confidence_of d) (confidence_of c)) eqn:E.
    + constructor; [constructor; assumption |].
      assert (not_below c d) as Hcd by (apply flt_asym; exact E).
      constructor; [exact Hcd |].
      apply Forall_forall. intros e He.
      rewrite Forall_forall in Hd. specialize (Hd e He).
      unfold not_below in *. eapply flt_negtrans; eassumption.
    + constructor; [exact IH |].
      apply Forall_forall. intros e He.
      apply (Permutation_in _ (Permutation_sym
                                 (insert_by_confidence_perm c rest))) in He.
      destruct He as [<- | He]; [exact E |].
      rewrite Forall_forall in Hd. now apply Hd.
Qed.

Lemma sort_fold_spec all_faces :
  forall sorted,
    StronglySorted not_below sorted ->
    StronglySorted not_below
      (fold_left (fun s c => insert_by_confidence c s) all_faces sorted)
    /\ Permutation (sorted ++ all_faces)
         (fold_left (fun s c => insert_by_confidence c s) all_faces sorted).
Proof.
  induction all_faces as [|c rest IH]; intros sorted Hs; cbn [fold_left].
  - rewrite app_nil_r. split; [assumption | reflexivity].
  - destruct (IH (insert_by_confidence c sorted)
                (insert_by_confidence_sorted c sorted Hs)) as [S P].
    split; [exact S |].
    rewrite <- P. rewrite <- (insert_by_confidence_perm c sorted).
    symmetry. apply Permutation_middle.
Qed.

Lemma sort_by_confidence_spec all_faces :
  StronglySorted not_below (sort_by_confidence all_faces)
  /\ Permutation all_faces (sort_by_confidence all_faces).
Proof.
  unfold Advanced.sort_by_confidence.
  apply (sort_fold_spec all_faces []). constructor.
Qed.

(** Where a candidate comes from. *)
Definition scored_detection (images : list Image) (c : candidate) : Prop :=
  exists img enh_idx enhanced_img faces face_data,
    In img images /\ is_empty img = false /\
    nth_error (enhance_image_for_detection img) enh_idx = Some enhanced_img /\
    detect_faces_multiple_methods enhanced_img = Ok faces /\
    In face_data faces /\
    confidence_of c
    = confidence_score enhanced_img (Advanced.w face_data)
        (Advanced.h face_data) (Advanced.method face_data) enh_idx.

Lemma candidates_of_faces_origin enhanced_img enh_idx faces c :
  In c (candidates_of_faces enhanced_img enh_idx faces) ->
  exists face_data,
    In face_data faces /\
    confidence_of c
    = confidence_score enhanced_img (Advanced.w face_data)
        (Advanced.h face_data) (Advanced.method face_data) enh_idx.
Proof.
  unfold Advanced.candidates_of_faces. intros H.
  apply in_flat_map in H. destruct H as (fd & Ifd & Hc).
  exists fd. split; [assumption |].
  destruct (crop_face_3x4 enhanced_img (Advanced.x fd) (Advanced.y fd)
              (Advanced.w fd) (Advanced.h fd)); [| destruct Hc].
  destruct Hc as [<- | []]. reflexivity.
Qed.

Lemma scan_enhanced_origin enhanced_images :
  forall enh_idx found c,
    scan_enhanced enh_idx enhanced_images = Ok found -> In c found ->
    exists k enhanced_img faces face_data,
      nth_error enhanced_images k = Some enhanced_img /\
      detect_faces_multiple_methods enhanced_img = Ok faces /\
      In face_data faces /\
      confidence_of c
      = confidence_score enhanced_img (Advanced.w face_data)
          (Advanced.h face_data) (Advanced.method face_data)
          (enh_idx + k)%nat.
Proof.
  induction enhanced_images as [|e rest IH]; intros enh_idx found c;
    cbn [Advanced.scan_enhanced].
  - intros E. injection E as <-. intros [].
  - destruct (detect_faces_multiple_methods e) as [faces | ex] eqn:D;
      cbn [bind]; [| discriminate].
    destruct (scan_enhanced (S enh_idx) rest) as [later | ex] eqn:L;
      cbn [bind]; [| discriminate].
    intros E. injection E as <-. intros Hc.
    apply in_app_or in Hc. destruct Hc as [Hc | Hc].
    + apply candidates_of_faces_origin in Hc.
      destruct Hc as (fd & Ifd & Ec).
      exists 0%nat, e, faces, fd. rewrite Nat.add_0_r.
      repeat split; assumption.
    + destruct (IH (S enh_idx) later c L Hc)
        as (k & e' & faces' & fd & N & D' & Ifd & Ec).
      exists (S k), e', faces', fd.
      replace (enh_idx + S k)%nat with (S enh_idx + k)%nat by lia.
      repeat split; assumption.
Qed.

Lemma scan_images_origin images :
  forall all_faces c,
    scan_images images = Ok all_faces -> In c all_faces ->
    scored_detection images c.
Proof.
  induction images as [|img rest IH]; intros all_faces c;
    cbn [Advanced.scan_images].
  - intros E. injection E as <-. intros [].
  - assert (forall found, scan_images rest = Ok found -> In c found ->
                          scored_detection (img :: rest) c) as Later.
    { intros found E Hc.
      destruct (IH found c E Hc)
        as (i & k & e & faces & fd & Ii & Em & N & D & Ifd & Ec).
      exists i, k, e, faces, fd. repeat split; auto. now right. }
    destruct (is_empty img) eqn:Em; [exact (Later all_faces) |].
    destruct (scan_enhanced 0 (enhance_image_for_detection img))
      as [here | ex] eqn:H; cbn [bind]; [| discriminate].
    destruct (scan_images rest) as [later | ex] eqn:L;
      cbn [bind]; [| discriminate].
    intros E. injection E as <-. intros Hc.
    apply in_app_or in Hc. destruct Hc as [Hc | Hc].
    + destruct (scan_enhanced_origin _ _ _ _ H Hc)
        as (k & e & faces & fd & N & D & Ifd & Ec).
      exists img, k, e, faces, fd. repeat split; auto. now left.
    + exact (Later later eq_refl Hc).
Qed.

Lemma detect_faces_multiple_methods_returns image :
  (exists gray, to_gray image = Ok gray) ->
  exists faces, detect_faces_multiple_methods image = Ok faces.
Proof.
  intros (gray & G). unfold Advanced.detect_faces_multiple_methods.
  destruct (is_empty image); [eexists; reflexivity |].
  rewrite G. cbn [bind]. eexists; reflexivity.
Qed.

Lemma scan_enhanced_returns enhanced_images :
  (forall image, In image enhanced_images ->
                 exists gray, to_gray image = Ok gray) ->
  forall enh_idx, exists found,
    scan_enhanced enh_idx enhanced_images = Ok found.
Proof.
  induction enhanced_images as [|e rest IH]; intros G enh_idx;
    cbn [Advanced.scan_enhanced].
  - eexists; reflexivity.
  - destruct (detect_faces_multiple_methods_returns e) as (faces & ->);
      [apply G; now left |].
    destruct (IH (fun i Hi => G i (or_intror Hi)) (S enh_idx))
      as (later & ->).
    cbn [bind]. eexists; reflexivity.
Qed.

Lemma scan_images_returns images :
  (forall img enhanced_img,
     In img images -> In enhanced_img (enhance_image_for_detection img) ->
     exists gray, to_gray enhanced_img = Ok gray) ->
  exists all_faces, scan_images images = Ok all_faces.
Proof.
  induction images as [|img rest IH]; intros G; cbn [Advanced.scan_images].
  - eexists; reflexivity.
  - destruct (IH (fun i e Hi He => G i e (or_intror Hi) He)) as (later & L).
    destruct (is_empty img); [exists later; exact L |].
    destruct (scan_enhanced_returns (enhance_image_for_detection img)
                (fun e He => G img e (or_introl eq_refl) He) 0%nat)
      as (here & ->).
    rewrite L. cbn [bind]. eexists; reflexivity.
Qed.

(** C8. The confidence of a candidate is the region area over the image
    area, times the method bonus (1.2, 1.1, 1.0), times the variant bonus
    (1.1 on the original, 1.0 on an enhanced version).  When the grey
    conversion succeeds on every version of every image, detection
    returns; and whatever list it returns is the list of the candidates
    found, each scored by that formula, rearranged so that no candidate
    stands before one of larger confidence. *)
Theorem confidence_formula_and_descending_order (images : list Image) :
  (forall enhanced_img w h method enh_idx,
     confidence_score enhanced_img w h method enh_idx
     = fmul (fmul (true_div (w * h)
                     (fst (shape enhanced_img) * snd (shape enhanced_img)))
                  (method_bonus method))
            (variant_bonus enh_idx)) /\
  ((forall img enhanced_img,
      In img images -> In enhanced_img (enhance_image_for_detection img) ->
      exists gray, to_gray enhanced_img = Ok gray) ->
   exists returned, detect_faces_advanced images = Ok returned) /\
  (forall returned,
     detect_faces_advanced images = Ok returned ->
     StronglySorted not_below returned /\
     Forall (scored_detection images) returned /\
     exists all_faces,
       scan_images images = Ok all_faces /\ Permutation all_faces returned).
Proof.
  split; [exact confidence_score_formula |]. split.
  - intros G. destruct (scan_images_returns images G) as (all_faces & E).
    unfold Advanced.detect_faces_advanced. rewrite E. cbn [bind].
    eexists; reflexivity.
  - intros returned. unfold Advanced.detect_faces_advanced.
    destruct (scan_images images) as [all_faces | ex] eqn:E; cbn [bind];
      [| discriminate].
    intros R. injection R as <-.
    destruct (sort_by_confidence_spec all_faces) as [S P].
    split; [exact S |]. split.
    + apply Forall_forall. intros c Hc.
      apply (Permutation_in _ (Permutation_sym P)) in Hc.
      exact (scan_images_origin images all_faces c E Hc).
    + exists all_faces. split; [reflexivity | exact P].
Qed.

End DetectorProperties.

(** ** PhotoSelector: the order of the tiers *)

Section PhotoSelectorProperties.

Variable Image : Type.
Variable is_empty : Image -> bool.
Variable shape : Image -> Z * Z.
Variable to_gray : Image -> result Image.
Variable loaded : str -> bool.
Variable detectMultiScale : str -> Image -> result (list (Z * Z * Z * Z)).
Variable enhanced_versions : Image -> list Image.
Variable crop_face_3x4 : Image -> Z -> Z -> Z -> Z -> option Image.
Variable float : Type.
Variable true_div : Z -> Z -> float.
Variable fmul : float -> float -> float.
Variable f1_2 : float.
Variable f1_1 : float.
Variable flt : float -> float -> bool.
Variable Pdf : Type.
Variable extract_faces_from_rendered_pages : Pdf -> result (list Image).
Variable extract_full_page_images : Pdf -> result (list Image).

Local Abbreviation detect_faces_advanced :=
  (Advanced.detect_faces_advanced Image is_empty shape to_gray loaded
     detectMultiScale enhanced_versions crop_face_3x4 float true_div fmul
     f1_2 f1_1 flt).
Local Abbreviation detect_best_photo_or_fallback :=
  (Advanced.detect_best_photo_or_fallback Image is_empty shape to_gray loaded
     detectMultiScale enhanced_versions crop_face_3x4 float true_div fmul
     f1_2 f1_1 flt Pdf extract_faces_from_rendered_pages
     extract_full_page_images).
Local Abbreviation DetectFaces := (Advanced.DetectFaces Image Pdf).
Local Abbreviation RenderPages := (Advanced.RenderPages Image Pdf).
Local Abbreviation FullPages := (Advanced.FullPages Image Pdf).
Local Abbreviation call := (Advanced.call Image Pdf).
Local Abbreviation photo := (Advanced.photo Image).

(** What the first candidate of a detection gives. *)
Definition best_of (prefix : string) (faces : list (Image * str * float))
    : option photo :=
  match faces with
  | (best_face, method, _) :: _ => Some (Some best_face, lit prefix ++ method)
  | [] => None
  end.

(** The last tier after the calls in [log]: it ends the function whatever
    happens in it. *)
Definition after_full_pages (log : list call) (pdf_path : Pdf)
    : list call * result photo :=
  (log ++ [FullPages pdf_path],
   Ok match extract_full_page_images pdf_path with
      | Ok (best_page :: _) => (Some best_page, lit "full_document")
      | _ => (None, lit "none")
      end).

(** The whole function as a table over what its collaborators answer. *)
Definition tiers_table (images : list Image) (pdf_path : Pdf)
    : list call * result photo :=
  match detect_faces_advanced images with
  | Raise e => ([DetectFaces images], Raise e)
  | Ok faces_detected =>
      match best_of "face_detected_" faces_detected with
      | Some found => ([DetectFaces images], Ok found)
      | None =>
          match extract_faces_from_rendered_pages pdf_path with
          | Ok (page :: pages) =>
              let rendered_images := page :: pages in
              let log := [DetectFaces images; RenderPages pdf_path;
                          DetectFaces rendered_images] in
              match detect_faces_advanced rendered_images with
              | Ok rendered_faces =>
                  match best_of "face_rendered_" rendered_faces with
                  | Some found => (log, Ok found)
                  | None => after_full_pages log pdf_path
                  end
              | Raise _ => after_full_pages log pdf_path
              end
          | _ =>
              after_full_pages [DetectFaces images; RenderPages pdf_path]
                               pdf_path
          end
      end
  end.

Lemma detect_best_photo_or_fallback_table images pdf_path :
  detect_best_photo_or_fallback images pdf_path [] = tiers_table images pdf_path.
Proof.
  unfold Advanced.detect_best_photo_or_fallback, tiers_table,
    Advanced.rendered_tier, Advanced.full_page_tier, Advanced.try_except,
    after_full_pages, best_of.
  unfold Advanced.io_bind, Advanced.invoke, Advanced.ret.
  cbn [app].
  destruct (detect_faces_advanced images) as [[| [[bf m] cf] more] | e];
    try reflexivity.
  destruct (extract_faces_from_rendered_pages pdf_path)
    as [[| page pages] | e2]; cbv beta iota zeta.
  - destruct (extract_full_page_images pdf_path) as [[| p ps] | e3];
      reflexivity.
  - destruct (detect_faces_advanced (page :: pages))
      as [[| [[bf m] cf] more] | e2]; cbv beta iota zeta;
      try reflexivity;
      destruct (extract_full_page_images pdf_path) as [[| p ps] | e3];
      reflexivity.
  - destruct (extract_full_page_images pdf_path) as [[| p ps] | e3];
      reflexivity.
Qed.

(** C9, as the code has it.  The calls are made in the order embedded
    detection, page rendering, detection on the rendered pages, full
    pages, each at most once.  A candidate in the embedded images ends the
    function after the first call; an exception in the second or third
    tier is that tier yielding nothing; [(None, none)] is returned only
    after the full-page call.  An exception of the embedded detection is
    not caught: it leaves the function after the first call. *)
Theorem photo_tiers_as_coded (images : list Image) (pdf_path : Pdf) :
  let run := detect_best_photo_or_fallback images pdf_path [] in
  run = tiers_table images pdf_path /\
  (forall best_face method confidence rest,
     detect_faces_advanced images
     = Ok ((best_face, method, confidence) :: rest) ->
     run = ([DetectFaces images],
            Ok (Some best_face, lit "face_detected_" ++ method))) /\
  (forall e,
     detect_faces_advanced images = Raise e ->
     run = ([DetectFaces images], Raise e)) /\
  (detect_faces_advanced images = Ok [] ->
   (forall e, extract_faces_from_rendered_pages pdf_path = Raise e ->
      run = after_full_pages [DetectFaces images; RenderPages pdf_path]
                             pdf_path) /\
   (forall page pages e,
      extract_faces_from_rendered_pages pdf_path = Ok (page :: pages) ->
      detect_faces_advanced (page :: pages) = Raise e ->
      run = after_full_pages
              [DetectFaces images; RenderPages pdf_path;
               DetectFaces (page :: pages)] pdf_path)) /\
  (snd run = Ok (None, lit "none") ->
   In (FullPages pdf_path) (fst run) /\
   detect_faces_advanced images = Ok [] /\
   match extract_full_page_images pdf_path with
   | Ok (_ :: _) => False
   | _ => True
   end).
Proof.
  cbv zeta. rewrite detect_best_photo_or_fallback_table.
  split; [reflexivity |]. split; [| split; [| split]].
  - intros bf m cf rest E. unfold tiers_table. rewrite E. reflexivity.
  - intros e E. unfold tiers_table. rewrite E. reflexivity.
  - intros E. split.
    + intros e R. unfold tiers_table. rewrite E, R. reflexivity.
    + intros page pages e R D. unfold tiers_table.
      rewrite E, R. cbn [best_of]. cbv zeta. rewrite D. reflexivity.
  - unfold tiers_table, after_full_pages, best_of.
    destruct (detect_faces_advanced images) as [[| [[bf m] cf] more] | e];
      cbn [snd fst]; try discriminate.
    destruct (extract_faces_from_rendered_pages pdf_path)
      as [[| page pages] | e2]; cbv zeta.
    + cbn [snd fst].
      destruct (extract_full_page_images pdf_path) as [[| p ps] | e3];
        intros H; try discriminate H;
        (split; [apply in_or_app; right; now left | split; [reflexivity | exact I]]).
    + destruct (detect_faces_advanced (page :: pages))
        as [[| [[bf m] cf] more] | e2]; cbn [snd fst]; try discriminate;
        destruct (extract_full_page_images pdf_path) as [[| p ps] | e3];
        intros H; try discriminate H;
        (split; [apply in_or_app; right; now left | split; [reflexivity | exact I]]).
    + cbn [snd fst].
      destruct (extract_full_page_images pdf_path) as [[| p ps] | e3];
        intros H; try discriminate H;
        (split; [apply in_or_app; right; now left | split; [reflexivity | exact I]]).
Qed.

End PhotoSelectorProperties.

(** ** A concrete image library

    Images are numbers: every image is 10 by 10; image [n] below 10 has
    one enhanced version, [n + 10]; the profile cascade finds one region
    on each of 11, 12 and 13; the grey conversion fails on image 99.
    Floats are rationals. *)

Module Toy.

Definition is_empty (img : nat) : bool := false.
Definition shape (img : nat) : Z * Z := (10, 10).
Definition to_gray (img : nat) : result nat :=
  if (img =? 99)%nat then Raise Cv2Error else Ok img.
Definition loaded (method_name : str) : bool := true.
Definition detectMultiScale (method_name : str) (gray : nat)
    : result (list (Z * Z * Z * Z)) :=
  Ok (if str_eqb method_name (lit "profile") then
        match gray with
        | 11%nat => [(0, 0, 8, 10)]
        | 12%nat => [(0, 0, 5, 10)]
        | 13%nat => [(0, 0, 9, 10)]
        | _ => []
        end
      else []).
Definition enhanced_versions (img : nat) : list nat :=
  if (img <? 10)%nat then [(img + 10)%nat] else [].
Definition crop_face_3x4 (img : nat) (x y w h : Z) : option nat := Some img.
Definition true_div (a b : Z) : Q := inject_Z a / inject_Z b.
Definition flt (a b : Q) : bool := negb (Qle_bool b a).
Definition extract_faces_from_rendered_pages (pdf_path : unit)
    : result (list nat) := Ok [1%nat].
Definition extract_full_page_images (pdf_path : unit) : result (list nat) :=
  Ok [7%nat].

Definition detect_faces_advanced :=
  Advanced.detect_faces_advanced nat is_empty shape to_gray loaded
    detectMultiScale enhanced_versions crop_face_3x4 Q true_div Qmult
    (12 # 10) (11 # 10) flt.

Definition detect_best_photo_or_fallback :=
  Advanced.detect_best_photo_or_fallback nat is_empty shape to_gray loaded
    detectMultiScale enhanced_versions crop_face_3x4 Q true_div Qmult
    (12 # 10) (11 # 10) flt unit extract_faces_from_rendered_pages
    extract_full_page_images.

End Toy.

Lemma Qmult_one_r (v : Q) : Qmult v 1 = v.
Proof.
  destruct v as [n d]. unfold Qmult. cbn [Qnum Qden].
  rewrite Z.mul_1_r, Pos.mul_1_r. reflexivity.
Qed.

Lemma toy_flt_asym a b : Toy.flt a b = true -> Toy.flt b a = false.
Proof.
  unfold Toy.flt. rewrite negb_true_iff, negb_false_iff.
  intros H. apply Qle_bool_iff.
  destruct (Qlt_le_dec a b) as [L | L]; [now apply Qlt_le_weak |].
  apply Qle_bool_iff in L. congruence.
Qed.

Lemma toy_flt_negtrans a b c :
  Toy.flt a b = false -> Toy.flt b c = false -> Toy.flt a c = false.
Proof.
  unfold Toy.flt. rewrite !negb_false_iff. intros H1 H2.
  apply Qle_bool_iff in H1, H2. apply Qle_bool_iff.
  eapply Qle_trans; eassumption.
Qed.

Example toy_rendered_face :
  Toy.detect_best_photo_or_fallback [20%nat] tt []
  = ([Advanced.DetectFaces nat unit [20%nat]; Advanced.RenderPages nat unit tt;
      Advanced.DetectFaces nat unit [1%nat]],
     Ok (Some 11%nat, lit "face_rendered_profile_enh1")).
Proof. vm_compute. reflexivity. Qed.

Example toy_embedded_face :
  Toy.detect_best_photo_or_fallback [3%nat] tt []
  = ([Advanced.DetectFaces nat unit [3%nat]],
     Ok (Some 13%nat, lit "face_detected_profile_enh1")).
Proof. vm_compute. reflexivity. Qed.

(** C8 at the concrete library: three candidates scored 0.8, 0.5 and 0.9
    come back as 0.9, 0.8, 0.5. *)
Lemma confidence_order_witness :
  Toy.detect_faces_advanced [1%nat; 2%nat; 3%nat]
  = Ok [(13%nat, lit "profile_enh1", 90 # 100);
        (11%nat, lit "profile_enh1", 80 # 100);
        (12%nat, lit "profile_enh1", 50 # 100)]
  /\ StronglySorted (not_below nat Q Toy.flt)
       [(13%nat, lit "profile_enh1", 90 # 100);
        (11%nat, lit "profile_enh1", 80 # 100);
        (12%nat, lit "profile_enh1", 50 # 100)].
Proof.
  assert (Toy.detect_faces_advanced [1%nat; 2%nat; 3%nat]
          = Ok [(13%nat, lit "profile_enh1", 90 # 100);
                (11%nat, lit "profile_enh1", 80 # 100);
                (12%nat, lit "profile_enh1", 50 # 100)]) as E
    by (vm_compute; reflexivity).
  split; [exact E |].
  exact (proj1 (proj2 (proj2
           (confidence_formula_and_descending_order
              nat Toy.is_empty Toy.shape Toy.to_gray Toy.loaded
              Toy.detectMultiScale Toy.enhanced_versions Toy.crop_face_3x4
              Q Toy.true_div Qmult (12 # 10) (11 # 10) Toy.flt 1%Q
              Qmult_one_r toy_flt_asym toy_flt_negtrans
              [1%nat; 2%nat; 3%nat])) _ E)).
Defined.

(** C9, the code's behaviour against the claim: the grey conversion fails
    on the one embedded image; the exception leaves the function, and
    neither the rendered pages nor the full page, both available, are
    tried. *)
Lemma embedded_failure_skips_fallback :
  Toy.detect_best_photo_or_fallback [99%nat] tt []
  = ([Advanced.DetectFaces nat unit [99%nat]], Raise Cv2Error)
  /\ Toy.extract_full_page_images tt = Ok [7%nat].
Proof. vm_compute. split; reflexivity. Qed.

(** * Further properties of the code *)

(** ** CPFValidator and the formatted tax id *)

Lemma validate_cpf_of_clean (clean : str -> str) a b :
  clean a = clean b -> validate_cpf clean a = validate_cpf clean b.
Proof. intros E. unfold validate_cpf. rewrite E. reflexivity. Qed.

Lemma validate_true_length (clean : str -> str) s :
  validate_cpf clean s = Ok true -> length (clean s) = 11%nat.
Proof.
  unfold validate_cpf.
  destruct (Nat.eqb_spec (length (clean s)) 11); [auto | discriminate].
Qed.

Lemma valid_means_digits c :
  Textract.validate_cpf c = Ok true -> length c = 11%nat -> all_digits c.
Proof.
  intros V L. apply validate_true_length in V.
  apply filter_all_kept. unfold Textract.clean_cpf, strip_non_digits in V.
  congruence.
Qed.

Lemma format_cpf_length c : length c = 11%nat ->
  length (Textract.format_cpf c) = 14%nat.
Proof.
  intros L. unfold Textract.format_cpf, slice.
  rewrite !length_app, !length_firstn, !length_skipn, L. reflexivity.
Qed.

Lemma format_cpf_validate c :
  length c = 11%nat -> all_digits c ->
  Textract.validate_cpf (Textract.format_cpf c) = Textract.validate_cpf c.
Proof.
  intros L Hd. apply validate_cpf_of_clean.
  rewrite (format_cpf_digits c L Hd).
  symmetry. now apply strip_non_digits_id.
Qed.

(** The formatted form [ddd.ddd.ddd-dd] of 11 digits has 14 characters,
    cleans back to the 11 digits, and validates exactly when they do. *)
Theorem formatted_cpf_round_trip (c : str) :
  length c = 11%nat -> all_digits c ->
  length (Textract.format_cpf c) = 14%nat /\
  Textract.clean_cpf (Textract.format_cpf c) = c /\
  Textract.validate_cpf (Textract.format_cpf c) = Textract.validate_cpf c.
Proof.
  intros L Hd. split; [now apply format_cpf_length |].
  split; [now apply format_cpf_digits | now apply format_cpf_validate].
Qed.

Lemma formatted_cpf_round_trip_witness :
  length (Textract.format_cpf (lit "11144477735")) = 14%nat /\
  Textract.clean_cpf (Textract.format_cpf (lit "11144477735"))
  = lit "11144477735" /\
  Textract.validate_cpf (Textract.format_cpf (lit "11144477735"))
  = Textract.validate_cpf (lit "11144477735").
Proof.
  apply (formatted_cpf_round_trip (lit "11144477735")).
  - reflexivity.
  - repeat constructor.
Defined.

Example validators_differ_on_14_digits :
  Bkp.validate_cpf (lit "00011144477735") = Ok true /\
  Robust.validate_cpf (lit "00011144477735") = Ok false.
Proof. vm_compute. split; reflexivity. Qed.

Lemma robust_validate_digits d :
  all_digits d -> Robust.validate_cpf d = Ok (valid_digits d).
Proof.
  intros Hd. unfold Robust.validate_cpf.
  rewrite validate_cpf_pure;
    unfold Robust.clean_cpf; rewrite (strip_non_digits_id d Hd);
    [reflexivity | assumption].
Qed.

(** The validator of bkp/document_processor.py and the one of the other
    files agree on every string with at most 11 digits.  On more digits
    the latter always answers [False], the former validates the last 11
    of exactly 14 digits and the first 11 otherwise. *)
Theorem validators_differ_only_beyond_11_digits (s : str) :
  let digits := strip_non_digits s in
  ((length digits <= 11)%nat -> Bkp.validate_cpf s = Robust.validate_cpf s) /\
  ((11 < length digits)%nat -> Robust.validate_cpf s = Ok false) /\
  (length digits = 14%nat ->
     Bkp.validate_cpf s = Robust.validate_cpf (skipn 3 digits)) /\
  ((11 < length digits)%nat -> length digits <> 14%nat ->
     Bkp.validate_cpf s = Robust.validate_cpf (firstn 11 digits)).
Proof.
  cbv zeta.
  pose proof (strip_non_digits_all s) as Hd.
  assert (Bkp.validate_cpf s = Ok (valid_digits (Bkp.clean_cpf s))) as B.
  { apply (validate_cpf_pure Bkp.clean_cpf).
    apply (bkp_clean_digits_short s). }
  assert (Robust.validate_cpf s = Ok (valid_digits (strip_non_digits s)))
    as R.
  { apply (validate_cpf_pure Robust.clean_cpf). exact Hd. }
  split; [| split; [| split]].
  - intros L. rewrite B, R. unfold Bkp.clean_cpf. cbv zeta.
    destruct (Nat.ltb_spec 11 (length (strip_non_digits s)));
      [lia | reflexivity].
  - intros L. rewrite R. unfold valid_digits. cbv zeta.
    destruct (Nat.eqb_spec (length (strip_non_digits s)) 11);
      [lia | reflexivity].
  - intros L. rewrite B.
    rewrite (robust_validate_digits (skipn 3 (strip_non_digits s)))
      by now apply all_digits_skipn.
    unfold Bkp.clean_cpf, last_n. cbv zeta. rewrite L. reflexivity.
  - intros L N. rewrite B.
    rewrite (robust_validate_digits (firstn 11 (strip_non_digits s)))
      by now apply all_digits_firstn.
    unfold Bkp.clean_cpf. cbv zeta.
    destruct (Nat.ltb_spec 11 (length (strip_non_digits s))); [| lia].
    destruct (Nat.eqb_spec (length (strip_non_digits s)) 14);
      [contradiction | reflexivity].
Qed.

(** ** FieldExtractor: the validity flag of [process_document] *)

Lemma text_cpf_shape text :
  Textract.cpf (Textract.extract_information_from_text text) = [] \/
  exists c, Textract.cpf (Textract.extract_information_from_text text)
            = Textract.format_cpf c /\
            length c = 11%nat /\ all_digits c /\
            Textract.validate_cpf c = Ok true.
Proof.
  unfold Textract.extract_information_from_text. cbn [Textract.cpf].
  pose proof (cpf_candidates_good text) as G.
  destruct (Textract.cpf_candidates text) as [|c rest]; [now left |].
  right. inversion G as [| ? ? (L & NI & V & Hd) _]; subst.
  exists c. repeat split; auto. now apply cpf_is_valid_iff.
Qed.

Lemma forms_cpf_shape kv :
  Textract.cpf (Textract.extract_information_from_forms kv) = [] \/
  exists c, Textract.cpf (Textract.extract_information_from_forms kv)
            = Textract.format_cpf c /\
            length c = 11%nat /\ all_digits c /\
            Textract.validate_cpf c = Ok true.
Proof.
  unfold Textract.extract_information_from_forms. cbn [Textract.cpf].
  destruct (forms_cpf_accepted (Textract.forms_nis_pis_numbers kv) kv)
    as [E | (key & value & c & _ & _ & _ & L & _ & V & E)]; [now left |].
  right. exists c. repeat split; auto. now apply valid_means_digits.
Qed.

(** In [process_document] of src/document_processor_textract.py the flag
    [cpf_valido] is computed without an exception and is [True] exactly
    when a tax id was extracted; the extracted tax id, from either source,
    has 14 characters. *)
Theorem cpf_valido_iff_cpf_found
    (text : str) (key_value_pairs : list (str * str)) :
  let r := Textract.extracted_info text key_value_pairs in
  Textract.cpf_valido r
  = Ok (match Textract.cpf r with [] => false | _ => true end) /\
  (Textract.cpf r = [] \/ length (Textract.cpf r) = 14%nat).
Proof.
  cbv zeta.
  assert (Textract.cpf (Textract.extracted_info text key_value_pairs) = [] \/
          exists c,
            Textract.cpf (Textract.extracted_info text key_value_pairs)
            = Textract.format_cpf c /\
            length c = 11%nat /\ all_digits c /\
            Textract.validate_cpf c = Ok true) as Shape.
  { unfold Textract.extracted_info, Textract.combine. cbn [Textract.cpf].
    destruct (forms_cpf_shape key_value_pairs) as [E | (c & E & H)].
    - rewrite E. cbn [Textract.py_or]. apply text_cpf_shape.
    - right. exists c. split; [| exact H].
      rewrite E. apply py_or_nonempty. apply format_cpf_nonempty. }
  unfold Textract.cpf_valido.
  destruct Shape as [E | (c & E & L & Hd & V)].
  - rewrite E. split; [reflexivity | now left].
  - rewrite E. split; [| right; now apply format_cpf_length].
    rewrite (format_cpf_validate c L Hd), V.
    destruct (Textract.format_cpf c) eqn:F; [| reflexivity].
    destruct (format_cpf_nonempty c F).
Qed.

(** ** FaceCandidateDetector: more on deduplication *)

Lemma ForallOrdPairs_app_inv {A} (R : A -> A -> Prop) (u v : list A) :
  ForallOrdPairs R (u ++ v) ->
  forall a b, In a u -> In b v -> R a b.
Proof.
  induction u as [|c u IH]; intros H a b Ia Ib; [destruct Ia |].
  simpl in H. inversion H as [| ? ? Hc Hrest]; subst.
  destruct Ia as [<- | Ia].
  - rewrite Forall_forall in Hc. apply Hc. apply in_or_app. now right.
  - now apply IH.
Qed.

Lemma unique_loop_apart faces :
  forall unique_faces,
    ForallOrdPairs apart (unique_faces ++ faces) ->
    Advanced.unique_loop faces unique_faces = unique_faces ++ faces.
Proof.
  induction faces as [|f rest IH]; intros u H; cbn [Advanced.unique_loop].
  - now rewrite app_nil_r.
  - cbv zeta.
    assert (existsb (Advanced.too_close f) u = false) as E.
    { apply not_true_is_false. intros T. apply existsb_exists in T.
      destruct T as (b & Ib & Tb).
      pose proof (ForallOrdPairs_app_inv apart u (f :: rest) H b f Ib
                    (or_introl eq_refl)) as Ap.
      unfold apart in Ap. congruence. }
    rewrite E. rewrite IH; rewrite <- app_assoc; [reflexivity | exact H].
Qed.

Lemma remove_duplicate_faces_apart faces :
  ForallOrdPairs apart faces -> Advanced.remove_duplicate_faces faces = faces.
Proof.
  intros H. unfold Advanced.remove_duplicate_faces.
  destruct (length faces <=? 1)%nat; [reflexivity |].
  now apply (unique_loop_apart faces []).
Qed.

(** Deduplicating twice is deduplicating once, and it never grows the
    list. *)
Theorem remove_duplicate_faces_idempotent (faces : list Advanced.face) :
  Advanced.remove_duplicate_faces (Advanced.remove_duplicate_faces faces)
  = Advanced.remove_duplicate_faces faces
  /\ (length (Advanced.remove_duplicate_faces faces) <= length faces)%nat.
Proof.
  destruct (remove_duplicate_faces_spec faces) as (Sub & Pairs & _).
  split; [now apply remove_duplicate_faces_apart |].
  clear Pairs. induction Sub; simpl; lia.
Qed.

(** Detections that do not intersect are all kept, in their order. *)
Theorem disjoint_faces_all_kept (faces : list Advanced.face) :
  Forall (fun f => 0 <= Advanced.area f) faces ->
  ForallOrdPairs (fun a b => Advanced.overlap_area a b = 0) faces ->
  Advanced.remove_duplicate_faces faces = faces.
Proof.
  intros Hpos Hdis. apply remove_duplicate_faces_apart.
  revert Hpos. induction Hdis as [| a l Ha Hl IH]; intros Hpos;
    [constructor |].
  inversion Hpos as [| ? ? Pa Pl]; subst.
  constructor; [| now apply IH].
  rewrite Forall_forall in *. intros b Ib. unfold apart.
  rewrite too_close_Z, overlap_area_sym, (Ha b Ib).
  apply Z.ltb_ge. specialize (Pl b Ib). lia.
Qed.

Lemma disjoint_faces_all_kept_witness :
  Advanced.remove_duplicate_faces [box 0 0 10 10; box 10 0 10 10]
  = [box 0 0 10 10; box 10 0 10 10].
Proof.
  apply (disjoint_faces_all_kept [box 0 0 10 10; box 10 0 10 10]).
  - repeat constructor; vm_compute; discriminate.
  - repeat constructor.
Defined.

(** ** FaceCandidateDetector: more on the sort *)

Section SortProperties.

Variable Image : Type.
Variable float : Type.
Variable flt : float -> float -> bool.

Local Abbreviation candidate := (Advanced.candidate Image float).
Local Abbreviation confidence_of := (Advanced.confidence_of Image float).
Local Abbreviation insert_by_confidence :=
  (Advanced.insert_by_confidence Image float flt).
Local Abbreviation sort_by_confidence :=
  (Advanced.sort_by_confidence Image float flt).
Local Abbreviation may_precede := (not_below Image float flt).

Lemma StronglySorted_app_inv {A} (R : A -> A -> Prop) (u v : list A) :
  StronglySorted R (u ++ v) -> forall a b, In a u -> In b v -> R a b.
Proof.
  induction u as [|c u IH]; intros H a b Ia Ib; [destruct Ia |].
  simpl in H. apply StronglySorted_inv in H. destruct H as [Hs Hc].
  destruct Ia as [<- | Ia].
  - rewrite Forall_forall in Hc. apply Hc. apply in_or_app. now right.
  - now apply IH.
Qed.

Lemma insert_by_confidence_last c sorted :
  Forall (fun d => may_precede d c) sorted ->
  insert_by_confidence c sorted = sorted ++ [c].
Proof.
  induction 1 as [| d rest Hd _ IH]; cbn [Advanced.insert_by_confidence];
    [reflexivity |].
  unfold not_below in Hd. rewrite Hd, IH. reflexivity.
Qed.

Lemma sort_fold_sorted all_faces :
  forall sorted,
    StronglySorted may_precede (sorted ++ all_faces) ->
    fold_left (fun s c => insert_by_confidence c s) all_faces sorted
    = sorted ++ all_faces.
Proof.
  induction all_faces as [|c rest IH]; intros sorted H; cbn [fold_left].
  - now rewrite app_nil_r.
  - rewrite insert_by_confidence_last.
    + rewrite IH; rewrite <- app_assoc; [reflexivity | exact H].
    + apply Forall_forall. intros d Hd.
      apply (StronglySorted_app_inv _ sorted (c :: rest) H d c Hd).
      now left.
Qed.

(** A list already in descending order of confidence is returned as it
    is; in particular candidates of equal confidence are not permuted.
    Nothing is assumed of the comparison. *)
Theorem sorted_candidates_unchanged (all_faces : list candidate) :
  StronglySorted may_precede all_faces ->
  sort_by_confidence all_faces = all_faces.
Proof.
  intros H. unfold Advanced.sort_by_confidence.
  now apply (sort_fold_sorted all_faces []).
Qed.

End SortProperties.

Lemma sorted_candidates_unchanged_witness :
  Advanced.sort_by_confidence nat Q Toy.flt
    [(1%nat, lit "a", 9 # 10); (2%nat, lit "b", 1 # 2);
     (3%nat, lit "c", 1 # 2)]
  = [(1%nat, lit "a", 9 # 10); (2%nat, lit "b", 1 # 2);
     (3%nat, lit "c", 1 # 2)].
Proof.
  apply (sorted_candidates_unchanged nat Q Toy.flt).
  repeat constructor.
Defined.

Lemma filter_none {A} (f : A -> bool) (l : list A) :
  (forall e, In e l -> f e = true -> False) -> filter f l = [].
Proof.
  induction l as [|a l IH]; intros H; [reflexivity |].
  cbn [filter]. destruct (f a) eqn:Fa.
  - destruct (H a (or_introl eq_refl) Fa).
  - apply IH. intros e He. apply H. now right.
Qed.

Section SortStability.

Variable Image : Type.
Variable float : Type.
Variable flt : float -> float -> bool.

Hypothesis flt_asym : forall a b, flt a b = true -> flt b a = false.
Hypothesis flt_negtrans :
  forall a b c, flt a b = false -> flt b c = false -> flt a c = false.

Local Abbreviation candidate := (Advanced.candidate Image float).
Local Abbreviation confidence_of := (Advanced.confidence_of Image float).
Local Abbreviation insert_by_confidence :=
  (Advanced.insert_by_confidence Image float flt).
Local Abbreviation sort_by_confidence :=
  (Advanced.sort_by_confidence Image float flt).
Local Abbreviation may_precede := (not_below Image float flt).

(** The candidates whose confidence neither exceeds [v] nor is below it. *)
Definition same_confidence (v : float) (c : candidate) : bool :=
  negb (flt v (confidence_of c)) && negb (flt (confidence_of c) v).

Lemma insert_by_confidence_filter v x sorted :
  StronglySorted may_precede sorted ->
  filter (same_confidence v) (insert_by_confidence x sorted)
  = filter (same_confidence v) sorted
      ++ (if same_confidence v x then [x] else []).
Proof.
  induction 1 as [| d rest Hs IH Hd]; cbn [Advanced.insert_by_confidence].
  - cbn [filter app]. destruct (same_confidence v x); reflexivity.
  - destruct (flt (confidence_of d) (confidence_of x)) eqn:E.
    + cbn [filter]. destruct (same_confidence v x) eqn:Sx.
      * assert (filter (same_confidence v) (d :: rest) = []) as None.
        { apply filter_none. intros e He Se.
          unfold same_confidence in Sx, Se.
          apply andb_true_iff in Sx, Se.
          destruct Sx as [Sx1 Sx2], Se as [Se1 Se2].
          apply negb_true_iff in Sx1, Sx2, Se1, Se2.
          assert (flt (confidence_of e) (confidence_of x) = false) as Ex
            by (eapply flt_negtrans; eassumption).
          assert (flt (confidence_of d) (confidence_of e) = false) as De.
          { destruct He as [<- | He].
            - destruct (flt (confidence_of d) (confidence_of d)) eqn:R;
                [| reflexivity].
              pose proof (flt_asym _ _ R). congruence.
            - rewrite Forall_forall in Hd. exact (Hd e He). }
          pose proof (flt_negtrans _ _ _ De Ex). congruence. }
        cbn [filter] in None. rewrite None. reflexivity.
      * rewrite app_nil_r. reflexivity.
    + cbn [filter]. rewrite IH.
      destruct (same_confidence v d); reflexivity.
Qed.

Lemma sort_fold_filter v all_faces :
  forall sorted,
    StronglySorted may_precede sorted ->
    filter (same_confidence v)
      (fold_left (fun s c => insert_by_confidence c s) all_faces sorted)
    = filter (same_confidence v) sorted
        ++ filter (same_confidence v) all_faces.
Proof.
  induction all_faces as [|c rest IH]; intros sorted Hs; cbn [fold_left].
  - cbn [filter]. now rewrite app_nil_r.
  - rewrite IH
      by (apply insert_by_confidence_sorted; assumption).
    rewrite insert_by_confidence_filter by assumption.
    rewrite <- app_assoc. cbn [filter].
    destruct (same_confidence v c); reflexivity.
Qed.

(** The sort is stable: among candidates of the same confidence the order
    of detection is kept, so the best photo is the first detected of the
    candidates of largest confidence. *)
Theorem sort_by_confidence_stable (v : float) (all_faces : list candidate) :
  filter (same_confidence v) (sort_by_confidence all_faces)
  = filter (same_confidence v) all_faces.
Proof.
  unfold Advanced.sort_by_confidence.
  rewrite (sort_fold_filter v all_faces []) by constructor.
  reflexivity.
Qed.

End SortStability.

Lemma sort_by_confidence_stable_witness :
  filter (same_confidence nat Q Toy.flt (1 # 2))
    (Advanced.sort_by_confidence nat Q Toy.flt
       [(1%nat, lit "a", 1 # 2); (2%nat, lit "b", 9 # 10);
        (3%nat, lit "c", 2 # 4)])
  = filter (same_confidence nat Q Toy.flt (1 # 2))
      [(1%nat, lit "a", 1 # 2); (2%nat, lit "b", 9 # 10);
       (3%nat, lit "c", 2 # 4)].
Proof.
  apply (sort_by_confidence_stable nat Q Toy.flt
           toy_flt_asym toy_flt_negtrans).
Defined.

Example stable_sort_run :
  Advanced.sort_by_confidence nat Q Toy.flt
    [(1%nat, lit "a", 1 # 2); (2%nat, lit "b", 9 # 10);
     (3%nat, lit "c", 2 # 4)]
  = [(2%nat, lit "b", 9 # 10); (1%nat, lit "a", 1 # 2);
     (3%nat, lit "c", 2 # 4)].
Proof. vm_compute. reflexivity. Qed.

(** ** FaceCandidateDetector: what one detection pass reports *)

Section DetectionPass.

Variable Image : Type.
Variable is_empty : Image -> bool.
Variable shape : Image -> Z * Z.
Variable to_gray : Image -> result Image.
Variable loaded : str -> bool.
Variable detectMultiScale : str -> Image -> result (list (Z * Z * Z * Z)).
Variable enhanced_versions : Image -> list Image.
Variable crop_face_3x4 : Image -> Z -> Z -> Z -> Z -> option Image.
Variable float : Type.
Variable true_div : Z -> Z -> float.
Variable fmul : float -> float -> float.
Variable f1_2 : float.
Variable f1_1 : float.
Variable flt : float -> float -> bool.
Variable Pdf : Type.
Variable extract_faces_from_rendered_pages : Pdf -> result (list Image).
Variable extract_full_page_images : Pdf -> result (list Image).

Local Abbreviation face_cascades := (Advanced.face_cascades loaded).
Local Abbreviation faces_of_method :=
  (Advanced.faces_of_method Image detectMultiScale).
Local Abbreviation detect_faces_multiple_methods :=
  (Advanced.detect_faces_multiple_methods Image is_empty to_gray loaded
     detectMultiScale).
Local Abbreviation scan_images :=
  (Advanced.scan_images Image is_empty shape to_gray loaded detectMultiScale
     enhanced_versions crop_face_3x4 float true_div fmul f1_2 f1_1).
Local Abbreviation detect_faces_advanced :=
  (Advanced.detect_faces_advanced Image is_empty shape to_gray loaded
     detectMultiScale enhanced_versions crop_face_3x4 float true_div fmul
     f1_2 f1_1 flt).
Local Abbreviation detect_best_photo_or_fallback :=
  (Advanced.detect_best_photo_or_fallback Image is_empty shape to_gray loaded
     detectMultiScale enhanced_versions crop_face_3x4 float true_div fmul
     f1_2 f1_1 flt Pdf extract_faces_from_rendered_pages
     extract_full_page_images).
Local Abbreviation DetectFaces := (Advanced.DetectFaces Image Pdf).
Local Abbreviation RenderPages := (Advanced.RenderPages Image Pdf).
Local Abbreviation FullPages := (Advanced.FullPages Image Pdf).

Lemma faces_of_method_name gray method_name f :
  In f (faces_of_method gray method_name) ->
  Advanced.method f = method_name.
Proof.
  unfold Advanced.faces_of_method.
  destruct (detectMultiScale method_name gray) as [faces | e];
    [| intros []].
  intros H. apply in_map_iff in H.
  destruct H as ([[[x y] w] h] & <- & _). reflexivity.
Qed.

Lemma kept_from_In {A} (kept faces : list A) :
  kept_from kept faces -> forall a, In a kept -> In a faces.
Proof.
  induction 1 as [| a kept faces _ IH | a kept faces _ IH]; intros b Hb.
  - destruct Hb.
  - destruct Hb as [<- | Hb]; [now left | right; now apply IH].
  - right. now apply IH.
Qed.

(** One pass of the cascades over an image.  An empty image gives no
    detection and is not converted; otherwise the pass fails exactly when
    the grey conversion does -- a cascade that fails only loses its own
    detections.  The detections reported carry the name of a loaded
    cascade, one of the three, and no two of them are too close. *)
Theorem detection_pass_report (image : Image) :
  (is_empty image = true -> detect_faces_multiple_methods image = Ok []) /\
  (is_empty image = false ->
   forall e, to_gray image = Raise e ->
             detect_faces_multiple_methods image = Raise e) /\
  (forall gray, to_gray image = Ok gray ->
                exists faces, detect_faces_multiple_methods image = Ok faces) /\
  (forall faces,
     detect_faces_multiple_methods image = Ok faces ->
     ForallOrdPairs apart faces /\
     Forall (fun f =>
               loaded (Advanced.method f) = true /\
               In (Advanced.method f)
                  [lit "frontal_default"; lit "frontal_alt"; lit "profile"])
            faces).
Proof.
  unfold Advanced.detect_faces_multiple_methods.
  split; [intros ->; reflexivity |].
  split; [intros -> e ->; reflexivity |].
  split.
  { intros gray ->. destruct (is_empty image); eexists; reflexivity. }
  intros faces.
  destruct (is_empty image).
  { intros E. injection E as <-. split; constructor. }
  destruct (to_gray image) as [gray | e]; cbn [bind]; [| discriminate].
  intros E. injection E as <-.
  destruct (remove_duplicate_faces_spec
              (flat_map (faces_of_method gray) face_cascades))
    as (Sub & Pairs & _).
  split; [exact Pairs |].
  apply Forall_forall. intros f Hf.
  apply (kept_from_In _ _ Sub) in Hf.
  apply in_flat_map in Hf. destruct Hf as (m & Im & Hf).
  apply faces_of_method_name in Hf. rewrite Hf.
  unfold Advanced.face_cascades in Im. apply filter_In in Im.
  destruct Im as [Im L]. split; assumption.
Qed.

Lemma scan_images_skips_empty images :
  scan_images (filter (fun img => negb (is_empty img)) images)
  = scan_images images.
Proof.
  induction images as [|img rest IH]; [reflexivity |].
  cbn [filter Advanced.scan_images].
  destruct (is_empty img) eqn:E; cbn [negb]; [exact IH |].
  cbn [Advanced.scan_images]. rewrite E, IH. reflexivity.
Qed.

(** Images that are [None] or of size 0 contribute nothing: detection on
    a list is detection on its non-empty images, and on a list of empty
    images it returns no candidate. *)
Theorem empty_images_are_skipped (images : list Image) :
  detect_faces_advanced (filter (fun img => negb (is_empty img)) images)
  = detect_faces_advanced images
  /\ (forallb is_empty images = true -> detect_faces_advanced images = Ok []).
Proof.
  unfold Advanced.detect_faces_advanced.
  split; [now rewrite scan_images_skips_empty |].
  intros H.
  assert (scan_images images = Ok []) as ->; [| reflexivity].
  induction images as [|img rest IH]; [reflexivity |].
  cbn [forallb] in H. apply andb_true_iff in H. destruct H as [E R].
  cbn [Advanced.scan_images]. rewrite E. now apply IH.
Qed.

(** The photo that is returned, and the calls made for it.  An image comes
    with one of the three kinds of extraction type and no image with the
    type [none]; at most four calls are made, detection sees the rendered
    pages only when there are some, and the full pages are the last
    call. *)
Theorem photo_result_shape (images : list Image) (pdf_path : Pdf) :
  let run := detect_best_photo_or_fallback images pdf_path [] in
  match snd run with
  | Ok (Some _, extraction_type) =>
      (exists method, extraction_type = lit "face_detected_" ++ method) \/
      (exists method, extraction_type = lit "face_rendered_" ++ method) \/
      extraction_type = lit "full_document"
  | Ok (None, extraction_type) => extraction_type = lit "none"
  | Raise e => detect_faces_advanced images = Raise e
  end /\
  (fst run = [DetectFaces images] \/
   fst run = [DetectFaces images; RenderPages pdf_path; FullPages pdf_path] \/
   exists page pages,
     extract_faces_from_rendered_pages pdf_path = Ok (page :: pages) /\
     (fst run = [DetectFaces images; RenderPages pdf_path;
                 DetectFaces (page :: pages)] \/
      fst run = [DetectFaces images; RenderPages pdf_path;
                 DetectFaces (page :: pages); FullPages pdf_path])).
Proof.
  cbv zeta. rewrite detect_best_photo_or_fallback_table.
  unfold tiers_table, after_full_pages, best_of.
  destruct (detect_faces_advanced images) as [[| [[bf m] cf] more] | e];
    cbn [fst snd].
  2:{ split; [left; now exists m | now left]. }
  2:{ split; [reflexivity | now left]. }
  destruct (extract_faces_from_rendered_pages pdf_path)
    as [[| page pages] | e2] eqn:R; cbv zeta.
  - cbn [fst snd app]. split; [| right; now left].
    destruct (extract_full_page_images pdf_path) as [[| p ps] | e3];
      [reflexivity | right; now right | reflexivity].
  - destruct (detect_faces_advanced (page :: pages))
      as [[| [[bf m] cf] more] | e2]; cbn [fst snd app].
    + split; [| right; right; exists page, pages; split;
                 [reflexivity | now right]].
      destruct (extract_full_page_images pdf_path) as [[| p ps] | e3];
        [reflexivity | right; now right | reflexivity].
    + split; [right; left; now exists m |].
      right; right; exists page, pages; split; [reflexivity | now left].
    + split; [| right; right; exists page, pages; split;
                 [reflexivity | now right]].
      destruct (extract_full_page_images pdf_path) as [[| p ps] | e3];
        [reflexivity | right; now right | reflexivity].
  - cbn [fst snd app]. split; [| right; now left].
    destruct (extract_full_page_images pdf_path) as [[| p ps] | e3];
      [reflexivity | right; now right | reflexivity].
Qed.

End DetectionPass.

(** ** The page and image extractors *)

Section PdfExtractionProperties.

Variable Image : Type.
Variable Pdf : Type.
Variable Doc : Type.
Variable Page : Type.
Variable Pixmap : Type.
Variable Xref : Type.
Variable fitz_open : Pdf -> result Doc.
Variable page_count : Doc -> nat.
Variable load_page : Doc -> nat -> result Page.
Variable get_pixmap : Page -> result Pixmap.
Variable width : Pixmap -> Z.
Variable height : Pixmap -> Z.
Variable decode : Pixmap -> result (option Image).
Variable resize_image_if_needed : Image -> result Image.
Variable get_images : Page -> result (list Xref).
Variable pixmap_of : Doc -> Xref -> result Pixmap.
Variable colour_channels : Pixmap -> Z.
Variable shape : Image -> Z * Z.

Local Abbreviation render_page_with load :=
  (Advanced.render_page Image Doc Page Pixmap load get_pixmap width height
     decode resize_image_if_needed).
Local Abbreviation render_pages_with load :=
  (Advanced.render_pages Image Doc Page Pixmap load get_pixmap width height
     decode resize_image_if_needed).
Local Abbreviation read_image :=
  (Advanced.read_image Image Doc Pixmap Xref width height decode
     resize_image_if_needed pixmap_of colour_channels shape).
Local Abbreviation read_images :=
  (Advanced.read_images Image Doc Pixmap Xref width height decode
     resize_image_if_needed pixmap_of colour_channels shape).
Local Abbreviation read_pages_with load :=
  (Advanced.read_pages Image Doc Page Pixmap Xref load width height decode
     resize_image_if_needed get_images pixmap_of colour_channels shape).
Local Abbreviation extract_images_from_pdf_with load :=
  (Advanced.extract_images_from_pdf Image Pdf Doc Page Pixmap Xref fitz_open
     page_count load width height decode resize_image_if_needed get_images
     pixmap_of colour_channels shape).

Lemma range_below n k : In k (range n) -> (k < n)%nat.
Proof. unfold range. intros H. apply in_seq in H. lia. Qed.

Lemma render_pages_length doc page_nums :
  forall faces, (length faces <= 2)%nat ->
    (length (render_pages_with load_page doc page_nums faces) <= 3)%nat.
Proof.
  induction page_nums as [|k rest IH]; intros faces L;
    cbn [Advanced.render_pages]; [lia |].
  destruct (render_page_with load_page doc k) as [[| | img] | e];
    [now apply IH | | | lia].
  - destruct (Nat.leb_spec 3 (length faces)); [lia | now apply IH].
  - cbv zeta.
    destruct (Nat.leb_spec 3 (length (faces ++ [img]))) as [G | G].
    + rewrite length_app. simpl. lia.
    + apply IH. lia.
Qed.

Lemma render_pages_agree load' doc page_nums :
  (forall k, In k page_nums -> load' doc k = load_page doc k) ->
  forall faces,
    render_pages_with load' doc page_nums faces
    = render_pages_with load_page doc page_nums faces.
Proof.
  induction page_nums as [|k rest IH]; intros H faces;
    cbn [Advanced.render_pages]; [reflexivity |].
  assert (render_page_with load' doc k = render_page_with load_page doc k)
    as ->.
  { unfold Advanced.render_page. rewrite (H k (or_introl eq_refl)).
    reflexivity. }
  assert (forall f, render_pages_with load' doc rest f
                    = render_pages_with load_page doc rest f) as R.
  { apply IH. intros j Hj. apply H. now right. }
  destruct (render_page_with load_page doc k) as [[| | img] | e];
    cbv zeta; rewrite ?R; reflexivity.
Qed.

(** At most three rendered pages are returned, whatever the length of the
    document, and no page after the third is loaded: the result is the
    same for any loader that agrees on the pages 0, 1 and 2. *)
Theorem rendered_pages_at_most_three (pdf_path : Pdf) :
  (length (Advanced.extract_faces_from_rendered_pages Image Pdf Doc Page
             Pixmap fitz_open page_count load_page get_pixmap width height
             decode resize_image_if_needed pdf_path) <= 3)%nat
  /\
  (forall load',
     (forall doc k, (k < 3)%nat -> load' doc k = load_page doc k) ->
     Advanced.extract_faces_from_rendered_pages Image Pdf Doc Page Pixmap
       fitz_open page_count load' get_pixmap width height decode
       resize_image_if_needed pdf_path
     = Advanced.extract_faces_from_rendered_pages Image Pdf Doc Page Pixmap
         fitz_open page_count load_page get_pixmap width height decode
         resize_image_if_needed pdf_path).
Proof.
  unfold Advanced.extract_faces_from_rendered_pages.
  destruct (fitz_open pdf_path) as [doc | e].
  - split.
    + apply render_pages_length. simpl. lia.
    + intros load' H. apply render_pages_agree.
      intros k Hk. apply H. apply range_below in Hk. lia.
  - split; [simpl; lia | reflexivity].
Qed.

(** What an embedded image passed before it was appended. *)
Definition usable_image (doc : Doc) (img : Image) : Prop :=
  exists xref pix cv_img,
    pixmap_of doc xref = Ok pix /\
    width pix * height pix <= 4000000 /\
    colour_channels pix < 4 /\
    decode pix = Ok (Some cv_img) /\
    50 < fst (shape cv_img) /\ 50 < snd (shape cv_img) /\
    resize_image_if_needed cv_img = Ok img.

Lemma read_image_append doc xref img :
  read_image doc xref = Ok (Advanced.Append img) -> usable_image doc img.
Proof.
  unfold Advanced.read_image.
  destruct (pixmap_of doc xref) as [pix | e] eqn:P; cbn [bind];
    [| discriminate].
  destruct (Z.ltb_spec 4000000 (width pix * height pix)); [discriminate |].
  destruct (Z.ltb_spec (colour_channels pix) 4); [| discriminate].
  destruct (decode pix) as [[cv_img |] | e] eqn:D; cbn [bind];
    try discriminate.
  destruct (Z.ltb_spec 50 (fst (shape cv_img))); cbn [andb];
    [| discriminate].
  destruct (Z.ltb_spec 50 (snd (shape cv_img))); [| discriminate].
  destruct (resize_image_if_needed cv_img) as [resized | e] eqn:R;
    cbn [bind]; [| discriminate].
  intros E. injection E as <-.
  exists xref, pix, cv_img. repeat split; assumption.
Qed.

Lemma read_images_spec doc image_list :
  forall images,
    (length images <= 9)%nat -> Forall (usable_image doc) images ->
    (length (read_images doc image_list images) <= 10)%nat /\
    Forall (usable_image doc) (read_images doc image_list images).
Proof.
  induction image_list as [|xref rest IH]; intros images L U;
    cbn [Advanced.read_images]; [split; [lia | assumption] |].
  destruct (read_image doc xref) as [[| | img] | e] eqn:R;
    try (now apply IH).
  - destruct (Nat.leb_spec 10 (length images)); [lia | now apply IH].
  - cbv zeta. apply read_image_append in R.
    assert (Forall (usable_image doc) (images ++ [img])) as U'
      by (apply Forall_app; split; [assumption | now constructor]).
    destruct (Nat.leb_spec 10 (length (images ++ [img]))) as [G | G].
    + split; [| assumption]. rewrite length_app. simpl. lia.
    + apply IH; [lia | assumption].
Qed.

Lemma read_pages_spec doc page_nums :
  forall images,
    (length images <= 9)%nat -> Forall (usable_image doc) images ->
    (length (read_pages_with load_page doc page_nums images) <= 10)%nat /\
    Forall (usable_image doc)
           (read_pages_with load_page doc page_nums images).
Proof.
  induction page_nums as [|k rest IH]; intros images L U;
    cbn [Advanced.read_pages]; [split; [lia | assumption] |].
  destruct (page <- load_page doc k ;; get_images page)
    as [image_list | e]; [| split; [lia | assumption]].
  cbv zeta.
  destruct (read_images_spec doc image_list images L U) as [L' U'].
  destruct (Nat.leb_spec 10 (length (read_images doc image_list images)));
    [split; assumption |].
  apply IH; [lia | assumption].
Qed.

Lemma read_pages_agree load' doc page_nums :
  (forall k, In k page_nums -> load' doc k = load_page doc k) ->
  forall images,
    read_pages_with load' doc page_nums images
    = read_pages_with load_page doc page_nums images.
Proof.
  induction page_nums as [|k rest IH]; intros H images;
    cbn [Advanced.read_pages]; [reflexivity |].
  rewrite (H k (or_introl eq_refl)).
  destruct (page <- load_page doc k ;; get_images page)
    as [image_list | e]; [| reflexivity].
  cbv zeta. rewrite IH; [reflexivity |].
  intros j Hj. apply H. now right.
Qed.

(** At most ten embedded images are returned, taken from the first five
    pages only; each of them was at most 4 megapixels in the file, had
    fewer than four colour channels and decoded to more than 50 by 50
    pixels. *)
Theorem embedded_images_at_most_ten (pdf_path : Pdf) :
  (length (Advanced.extract_images_from_pdf Image Pdf Doc Page Pixmap Xref
             fitz_open page_count load_page width height decode
             resize_image_if_needed get_images pixmap_of colour_channels
             shape pdf_path) <= 10)%nat /\
  (forall doc, fitz_open pdf_path = Ok doc ->
     Forall (usable_image doc)
            (extract_images_from_pdf_with load_page pdf_path)) /\
  (forall load',
     (forall doc k, (k < 5)%nat -> load' doc k = load_page doc k) ->
     extract_images_from_pdf_with load' pdf_path
     = extract_images_from_pdf_with load_page pdf_path).
Proof.
  unfold Advanced.extract_images_from_pdf.
  destruct (fitz_open pdf_path) as [doc | e].
  - destruct (read_pages_spec doc (range (Nat.min (page_count doc) 5)) [])
      as [L U]; [simpl; lia | constructor |].
    split; [exact L |]. split.
    + intros doc' E. injection E as <-. exact U.
    + intros load' H. apply read_pages_agree.
      intros k Hk. apply H. apply range_below in Hk. lia.
  - split; [simpl; lia |]. split; [discriminate | reflexivity].
Qed.

End PdfExtractionProperties.

(** ** Lower case *)

Lemma lower_idempotent c : lower (lower c) = lower c.
Proof. destruct c as [[] [] [] [] [] [] [] []]; vm_compute; reflexivity. Qed.

Lemma str_lower_idempotent s : str_lower (str_lower s) = str_lower s.
Proof.
  unfold str_lower. rewrite map_map. apply map_ext. apply lower_idempotent.
Qed.

(** The classifier reads its text in lower case only: a text and its
    lower-case form are classified alike. *)
Theorem identify_document_type_of_lower (text : str) :
  identify_document_type (str_lower text) = identify_document_type text.
Proof.
  unfold identify_document_type. rewrite str_lower_idempotent.
  destruct text; reflexivity.
Qed.

(** ** The text strategies *)

Section StrategiesProperties.

Variable Pdf : Type.
Variable check_pdf_validity : Pdf -> RobustText.pdf_info.
Variable pymupdf_text : Pdf -> result str.
Variable ocr_text : Pdf -> result str.
Variable images_text : Pdf -> result str.

Local Abbreviation extract_text_robust :=
  (RobustText.extract_text_robust Pdf check_pdf_validity pymupdf_text
     ocr_text images_text).

Lemma finish_lower gathered :
  str_lower (RobustText.finish gathered) = RobustText.finish gathered.
Proof.
  unfold RobustText.finish. destruct gathered as [text | e]; [| reflexivity].
  destruct (strip text); [reflexivity | apply str_lower_idempotent].
Qed.

Lemma significant_long n text :
  RobustText.significant n text = true ->
  text <> [] /\ (n < length (strip text))%nat.
Proof.
  unfold RobustText.significant. destruct text; [discriminate |].
  intros H. apply Nat.ltb_lt in H. split; [discriminate | exact H].
Qed.

(** [extract_text_robust] tries the strategies in the order PyMuPDF, OCR
    of the pages, OCR of the embedded images, the first only on a PDF
    with text and the last only on a PDF with images, and an invalid PDF
    tries none.  The text returned is in lower case, and it is empty or
    has more than 20 characters between its outer white space -- more than
    50 unless it comes from the embedded images. *)
Theorem extract_text_robust_strategies (pdf_path : Pdf) :
  let pdf_info := check_pdf_validity pdf_path in
  let tried := fst (extract_text_robust pdf_path) in
  let text := snd (extract_text_robust pdf_path) in
  kept_from tried [RobustText.PyMuPDF; RobustText.OCR; RobustText.ImagesOCR]
  /\ (RobustText.valid pdf_info = false -> tried = [] /\ text = [])
  /\ (In RobustText.PyMuPDF tried -> RobustText.has_text pdf_info = true)
  /\ (In RobustText.ImagesOCR tried ->
      RobustText.has_images pdf_info = true /\ In RobustText.OCR tried)
  /\ str_lower text = text
  /\ (text = [] \/
      (20 < length (strip text))%nat /\
      (In RobustText.ImagesOCR tried \/ (50 < length (strip text))%nat)).
Proof.
  cbv zeta. unfold RobustText.extract_text_robust. cbv zeta.
  destruct (check_pdf_validity pdf_path) as [valid has_text has_images].
  cbn [RobustText.valid RobustText.has_text RobustText.has_images].
  destruct valid; cbn [negb fst snd].
  2:{ split; [repeat constructor |].
      split; [intros _; split; reflexivity |].
      split; [intros [] |]. split; [intros [] |].
      split; [reflexivity | now left]. }
  assert (forall tried text,
            tried = [RobustText.OCR] \/
            tried = [RobustText.PyMuPDF; RobustText.OCR] /\ has_text = true ->
            str_lower text = text ->
            (text = [] \/ (50 < length (strip text))%nat) ->
            kept_from tried
              [RobustText.PyMuPDF; RobustText.OCR; RobustText.ImagesOCR]
            /\ (true = false -> tried = [] /\ text = [])
            /\ (In RobustText.PyMuPDF tried -> has_text = true)
            /\ (In RobustText.ImagesOCR tried ->
                has_images = true /\ In RobustText.OCR tried)
            /\ str_lower text = text
            /\ (text = [] \/
                (20 < length (strip text))%nat /\
                (In RobustText.ImagesOCR tried \/
                 (50 < length (strip text))%nat))) as TwoOnly.
  { intros tried text Ht Hl Hs.
    split; [destruct Ht as [-> | [-> _]]; repeat constructor |].
    split; [discriminate |].
    split; [destruct Ht as [-> | [-> ?]];
            [intros [E | []]; discriminate E | auto] |].
    split; [destruct Ht as [-> | [-> _]]; simpl; intros H;
            repeat (destruct H as [H | H]; try discriminate H);
            destruct H |].
    split; [exact Hl |].
    destruct Hs as [-> | Hs]; [now left | right; split; [lia | now right]]. }
  assert (forall tried text,
            tried = [RobustText.OCR; RobustText.ImagesOCR] \/
            tried = [RobustText.PyMuPDF; RobustText.OCR; RobustText.ImagesOCR]
            /\ has_text = true ->
            has_images = true ->
            str_lower text = text ->
            (text = [] \/ (20 < length (strip text))%nat) ->
            kept_from tried
              [RobustText.PyMuPDF; RobustText.OCR; RobustText.ImagesOCR]
            /\ (true = false -> tried = [] /\ text = [])
            /\ (In RobustText.PyMuPDF tried -> has_text = true)
            /\ (In RobustText.ImagesOCR tried ->
                has_images = true /\ In RobustText.OCR tried)
            /\ str_lower text = text
            /\ (text = [] \/
                (20 < length (strip text))%nat /\
                (In RobustText.ImagesOCR tried \/
                 (50 < length (strip text))%nat))) as Three.
  { intros tried text Ht Hi Hl Hs.
    split; [destruct Ht as [-> | [-> _]]; repeat constructor |].
    split; [discriminate |].
    split; [destruct Ht as [-> | [-> ?]];
            [simpl; intros H;
             repeat (destruct H as [H | H]; try discriminate H); destruct H
            | auto] |].
    split; [intros _; split; [exact Hi |];
            destruct Ht as [-> | [-> _]]; simpl; auto |].
    split; [exact Hl |].
    destruct Hs as [-> | Hs]; [now left | right; split; [exact Hs |]].
    left. destruct Ht as [-> | [-> _]]; simpl; auto. }
  destruct has_text; cbn [andb fst snd app].
  - destruct (RobustText.significant 50
                (RobustText.extract_text_pymupdf Pdf pymupdf_text pdf_path))
      eqn:S1; cbn [fst snd].
    + apply significant_long in S1. destruct S1 as [N L].
      split; [repeat constructor |]. split; [discriminate |].
      split; [reflexivity |].
      split; [simpl; intros [H | []]; discriminate H |].
      split; [apply finish_lower |].
      right. split; [lia | now right].
    + destruct (RobustText.significant 50
                  (RobustText.extract_text_ocr Pdf ocr_text pdf_path)) eqn:S2;
        cbn [fst snd].
      * apply significant_long in S2. destruct S2 as [N L].
        apply TwoOnly; [right; now split | apply finish_lower | now right].
      * destruct has_images; cbn [fst snd].
        -- destruct (RobustText.significant 20
                       (RobustText.extract_text_from_images Pdf images_text
                          pdf_path)) eqn:S3; cbn [fst snd].
           ++ apply significant_long in S3. destruct S3 as [N L].
              apply Three; [right; now split | reflexivity
                           | apply finish_lower | now right].
           ++ apply Three; [right; now split | reflexivity | reflexivity
                           | now left].
        -- apply TwoOnly; [right; now split | reflexivity | now left].
  - destruct (RobustText.significant 50
                (RobustText.extract_text_ocr Pdf ocr_text pdf_path)) eqn:S2;
      cbn [fst snd].
    + apply significant_long in S2. destruct S2 as [N L].
      apply TwoOnly; [now left | apply finish_lower | now right].
    + destruct has_images; cbn [fst snd].
      * destruct (RobustText.significant 20
                    (RobustText.extract_text_from_images Pdf images_text
                       pdf_path)) eqn:S3; cbn [fst snd].
        -- apply significant_long in S3. destruct S3 as [N L].
           apply Three; [now left | reflexivity | apply finish_lower
                        | now right].
        -- apply Three; [now left | reflexivity | reflexivity | now left].
      * apply TwoOnly; [now left | reflexivity | now left].
Qed.

End StrategiesProperties.

(** ** The merge of src/document_processor_improved.py *)

Example improved_keeps_free_text :
  Improved.combine
    {| Improved.nome := lit "Maria Silva"; Improved.cpf := [];
       Improved.rg := [] |}
    [(lit "nome", lit "Ana"); (lit "cpf", lit "111.444.777-35");
     (lit "identidade", lit "12.345")]
  = Ok {| Improved.nome := lit "Maria Silva";
          Improved.cpf := lit "111.444.777-35";
          Improved.rg := lit "12.345" |}.
Proof. vm_compute. reflexivity. Qed.

Lemma improved_validate_total x :
  Improved.validate_cpf x = Ok (valid_digits (strip_non_digits x)).
Proof.
  apply (validate_cpf_pure Improved.clean_cpf). apply strip_non_digits_all.
Qed.

Lemma merge_field_spec possible_keys current structured_data :
  (current <> [] ->
   Improved.merge_field possible_keys current structured_data = current) /\
  (current = [] ->
   Improved.merge_field possible_keys current structured_data
   = match Improved.first_present possible_keys structured_data with
     | Some value => value
     | None => []
     end).
Proof.
  unfold Improved.merge_field. split.
  - destruct current; [contradiction | reflexivity].
  - intros ->.
    destruct (Improved.first_present possible_keys structured_data)
      as [[|c v] |]; reflexivity.
Qed.

Lemma merge_cpf_spec current structured_data :
  exists merged,
    Improved.merge_cpf current structured_data = Ok merged /\
    (current <> [] -> merged = current) /\
    (current = [] ->
     merged = [] \/
     exists value,
       Improved.lookup (lit "cpf") structured_data = Some value /\
       length (strip_non_digits value) = 11%nat /\
       Improved.validate_cpf (strip_non_digits value) = Ok true /\
       merged = Improved.format_cpf (strip_non_digits value)).
Proof.
  unfold Improved.merge_cpf.
  destruct current as [|c0 rest].
  2:{ eexists. split; [reflexivity |]. split; [reflexivity | discriminate]. }
  cbn [Improved.first_present].
  destruct (Improved.lookup (lit "cpf") structured_data) as [[|c v] |] eqn:K;
    try (eexists; split; [reflexivity |];
         split; [contradiction | now left]).
  cbv zeta.
  destruct (Nat.eqb_spec (length (strip_non_digits (c :: v))) 11) as [L | L].
  2:{ eexists; split; [reflexivity |]. split; [contradiction | now left]. }
  rewrite improved_validate_total. cbn [bind].
  destruct (valid_digits (strip_non_digits (strip_non_digits (c :: v))))
    eqn:V.
  - eexists; split; [reflexivity |]. split; [contradiction |].
    intros _. right. exists (c :: v).
    rewrite improved_validate_total, V. repeat split; auto.
  - eexists; split; [reflexivity |]. split; [contradiction | now left].
Qed.

(** In document_processor_improved.py the free text has priority: a field
    the text extractor filled is never replaced, and the structured data
    only fills an empty field -- a name or id number with the value of the
    first key spelling present, as it stands, a tax id only with the
    formatted form of 11 digits that validate.  The merge never raises. *)
Theorem improved_free_text_first
    (extracted_info : Improved.info) (structured_data : list (str * str)) :
  exists merged,
    Improved.combine extracted_info structured_data = Ok merged /\
    (Improved.nome extracted_info <> [] ->
     Improved.nome merged = Improved.nome extracted_info) /\
    (Improved.cpf extracted_info <> [] ->
     Improved.cpf merged = Improved.cpf extracted_info) /\
    (Improved.rg extracted_info <> [] ->
     Improved.rg merged = Improved.rg extracted_info) /\
    (Improved.nome extracted_info = [] ->
     Improved.nome merged
     = match Improved.first_present [lit "nome"; lit "name"]
               structured_data with
       | Some value => value
       | None => []
       end) /\
    (Improved.cpf extracted_info = [] ->
     Improved.cpf merged = [] \/
     exists value,
       Improved.lookup (lit "cpf") structured_data = Some value /\
       length (strip_non_digits value) = 11%nat /\
       Improved.validate_cpf (strip_non_digits value) = Ok true /\
       Improved.cpf merged = Improved.format_cpf (strip_non_digits value)).
Proof.
  destruct extracted_info as [n c r].
  cbn [Improved.nome Improved.cpf Improved.rg].
  unfold Improved.combine. cbn [Improved.nome Improved.cpf Improved.rg].
  destruct structured_data as [|kv sd].
  { eexists. split; [reflexivity |].
    cbn [Improved.nome Improved.cpf Improved.rg].
    repeat split; auto. }
  destruct (merge_cpf_spec c (kv :: sd)) as (mc & Ec & Keep & Fill).
  rewrite Ec. cbn [bind]. cbv zeta.
  eexists. split; [reflexivity |].
  cbn [Improved.nome Improved.cpf Improved.rg].
  pose proof (merge_field_spec [lit "nome"; lit "name"] n (kv :: sd))
    as [Kn Fn].
  pose proof (merge_field_spec
                [lit "rg"; lit "registro geral"; lit "identidade"] r
                (kv :: sd)) as [Kr _].
  split; [exact Kn |]. split; [exact Keep |]. split; [exact Kr |].
  split; [exact Fn | exact Fill].
Qed.

(** ** FieldExtractor: cleaning of structured values and names *)

Definition ocr_suspect (c : ascii) : bool :=
  existsb (ascii_eqb c) (Textract.ocr_noise ++ lit "OlSZ").

Definition ocr_replace (c : ascii) : ascii :=
  let swap a b c := if ascii_eqb c a then b else c in
  swap "Z"%char "2"%char
    (swap "S"%char "5"%char (swap "l"%char "1"%char (swap "O"%char "0"%char c))).

Lemma fix_ocr_map value :
  Textract.fix_ocr value
  = map ocr_replace (Textract.remove_chars Textract.ocr_noise value).
Proof.
  unfold Textract.fix_ocr, Textract.replace_char. cbv zeta.
  rewrite !map_map. reflexivity.
Qed.

Lemma ocr_replace_clean c :
  existsb (ascii_eqb c) Textract.ocr_noise = false ->
  ocr_suspect (ocr_replace c) = false.
Proof.
  destruct c as [[] [] [] [] [] [] [] []]; vm_compute; congruence.
Qed.

Lemma digit_not_suspect c :
  is_digit c = true ->
  existsb (ascii_eqb c) Textract.ocr_noise = false /\ ocr_replace c = c.
Proof.
  destruct c as [[] [] [] [] [] [] [] []]; vm_compute;
    intros H; try discriminate H; split; reflexivity.
Qed.

(** After the substitutions a structured tax-id value holds none of the
    deleted punctuation and none of the letters O, l, S, Z; it is no
    longer than the value; and a value made of digits is left as it is. *)
Theorem fix_ocr_output (value : str) :
  Forall (fun c => ocr_suspect c = false) (Textract.fix_ocr value) /\
  (length (Textract.fix_ocr value) <= length value)%nat /\
  (all_digits value -> Textract.fix_ocr value = value).
Proof.
  rewrite fix_ocr_map. unfold Textract.remove_chars.
  split; [| split].
  - apply Forall_forall. intros c Hc. apply in_map_iff in Hc.
    destruct Hc as (c0 & <- & H0). apply filter_In in H0.
    destruct H0 as [_ N]. apply negb_true_iff in N.
    now apply ocr_replace_clean.
  - rewrite length_map. apply filter_length_le.
  - induction 1 as [| c rest Hc _ IH]; [reflexivity |].
    destruct (digit_not_suspect c Hc) as [N R].
    cbn [filter]. rewrite N. cbn [negb map]. rewrite R, IH. reflexivity.
Qed.

Lemma title_not_short n : (5 < length n)%nat -> (5 < length (str_title n))%nat.
Proof. intros L. unfold str_title. now rewrite title_from_length. Qed.

(** A name in the merged result, from either source, has more than five
    characters. *)
Theorem extracted_name_longer_than_5
    (text : str) (key_value_pairs : list (str * str)) :
  let r := Textract.extracted_info text key_value_pairs in
  Textract.nome r = [] \/ (5 < length (Textract.nome r))%nat.
Proof.
  cbv zeta. unfold Textract.extracted_info, Textract.combine.
  cbn [Textract.nome].
  unfold Textract.extract_information_from_forms,
    Textract.extract_information_from_text. cbn [Textract.nome].
  rewrite forms_nome_find.
  destruct (List.find accepted_name key_value_pairs) as [[key value] |] eqn:F.
  - apply find_some in F. destruct F as [_ A].
    unfold accepted_name in A. cbn [fst snd] in A.
    apply andb_true_iff in A. destruct A as [_ L]. apply Nat.ltb_lt in L.
    right. rewrite py_or_nonempty by now apply title_long_nonempty.
    now apply title_not_short.
  - cbn [Textract.py_or].
    destruct (extract_nome_accepted Textract.nome_patterns text)
      as [E | (p & m & _ & _ & E & L)]; [now left |].
    right. rewrite E. now apply title_not_short.
Qed.

Definition no_space (w : str) : Prop := Forall (fun c => is_space c = false) w.

Definition is_word_of_split (w : str) : Prop := w <> [] /\ no_space w.

Lemma rev_nonempty {A} (l : list A) : l <> [] -> rev l <> [].
Proof.
  intros N E. apply N. apply (f_equal (@rev A)) in E.
  now rewrite rev_involutive in E.
Qed.

Lemma split_from_words s :
  forall acc, no_space acc -> Forall is_word_of_split (split_from acc s).
Proof.
  induction s as [|c rest IH]; intros acc Ha; cbn [split_from].
  - destruct acc as [|a acc']; constructor; [| constructor].
    split; [apply rev_nonempty; discriminate | now apply Forall_rev].
  - destruct (is_space c) eqn:Sp.
    + destruct acc as [|a acc']; [apply IH; constructor |].
      constructor; [| apply IH; constructor].
      split; [apply rev_nonempty; discriminate | now apply Forall_rev].
    + apply IH. constructor; assumption.
Qed.

Lemma split_from_prefix w :
  forall acc t, no_space w ->
    split_from acc (w ++ t) = split_from (rev w ++ acc) t.
Proof.
  induction w as [|c w IH]; intros acc t Hw; [reflexivity |].
  inversion Hw as [| ? ? Hc Hrest]; subst.
  cbn [app split_from rev]. rewrite Hc. rewrite IH by assumption.
  rewrite <- app_assoc. reflexivity.
Qed.

Lemma split_join ws :
  Forall is_word_of_split ws -> split (join (lit " ") ws) = ws.
Proof.
  induction 1 as [| w rest [Hn Hw] Hrest IH]; [reflexivity |].
  unfold split in *. cbn [join].
  destruct rest as [|w2 rest'].
  - rewrite <- (app_nil_r w) at 1. rewrite split_from_prefix by assumption.
    cbn [split_from]. rewrite app_nil_r.
    destruct (rev w) eqn:R; [destruct (rev_nonempty w Hn R) |].
    rewrite <- R, rev_involutive. reflexivity.
  - rewrite split_from_prefix by assumption.
    rewrite app_nil_r. cbn [lit list_ascii_of_string app split_from].
    change (is_space " "%char) with true. cbv iota.
    destruct (rev w) eqn:R; [destruct (rev_nonempty w Hn R) |].
    rewrite <- R, rev_involutive. f_equal. exact IH.
Qed.

Lemma filter_all_id {A} (f : A -> bool) (l : list A) :
  Forall (fun a => f a = true) l -> filter f l = l.
Proof.
  induction 1 as [| a l Ha _ IH]; [reflexivity |].
  cbn [filter]. rewrite Ha, IH. reflexivity.
Qed.

(** Cleaning a name twice is cleaning it once: the cleaned name holds
    letters and single spaces only, and its words are those of the value
    after the deletion of the other characters. *)
Theorem normalise_name_idempotent (s : str) :
  Textract.normalise_name (Textract.normalise_name s)
  = Textract.normalise_name s
  /\ split (Textract.normalise_name s) = split (Textract.keep_name_chars s)
  /\ Forall is_word_of_split (split (Textract.normalise_name s)).
Proof.
  assert (Forall is_word_of_split (split (Textract.keep_name_chars s))) as W
    by (apply split_from_words; constructor).
  assert (split (Textract.normalise_name s)
          = split (Textract.keep_name_chars s)) as Sp
    by (unfold Textract.normalise_name; now apply split_join).
  split; [| split; [exact Sp | now rewrite Sp]].
  unfold Textract.normalise_name at 1.
  assert (Textract.keep_name_chars (Textract.normalise_name s)
          = Textract.normalise_name s) as ->.
  { unfold Textract.keep_name_chars. apply filter_all_id.
    apply normalise_name_chars. }
  rewrite Sp. reflexivity.
Qed.

(** ** The photo choice of src/document_processor_improved.py *)

Section BestPhotoProperties.

Variable Image : Type.
Variable is_empty : Image -> bool.
Variable shape : Image -> Z * Z.
Variable count_faces : Image -> result nat.

Local Abbreviation score_of := (Improved.score_of Image shape).
Local Abbreviation best_photo_loop :=
  (Improved.best_photo_loop Image is_empty shape count_faces).
Local Abbreviation detect_best_photo :=
  (Improved.detect_best_photo Image is_empty shape count_faces).

(** An image that takes part in the choice, with its number of faces. *)
Definition has_faces (images : list Image) (img : Image) (faces : nat)
    : Prop :=
  In img images /\ is_empty img = false /\
  count_faces img = Ok faces /\ (0 < faces)%nat.

Lemma best_photo_loop_spec images :
  forall best_photo best_score chosen,
    best_photo_loop images best_photo best_score = Ok chosen ->
    exists final_score,
      (chosen = best_photo /\ final_score = best_score \/
       exists img faces,
         chosen = Some img /\ has_faces images img faces /\
         score_of img faces = final_score /\ best_score < final_score) /\
      (forall img faces, has_faces images img faces ->
                         score_of img faces <= final_score).
Proof.
  induction images as [|img rest IH]; intros bp bs chosen;
    cbn [Improved.best_photo_loop].
  - intros E. injection E as <-. exists bs. split; [now left |].
    intros i f (I & _). destruct I.
  - assert (forall bp' bs',
              best_photo_loop rest bp' bs' = Ok chosen ->
              bs <= bs' ->
              (bp' = bp /\ bs' = bs \/
               exists faces, bp' = Some img /\ has_faces (img :: rest) img faces
                             /\ score_of img faces = bs' /\ bs < bs') ->
              (forall faces, is_empty img = false ->
                             count_faces img = Ok faces -> (0 < faces)%nat ->
                             score_of img faces <= bs') ->
              exists final_score,
                (chosen = bp /\ final_score = bs \/
                 exists i f, chosen = Some i /\ has_faces (img :: rest) i f /\
                             score_of i f = final_score /\ bs < final_score) /\
                (forall i f, has_faces (img :: rest) i f ->
                             score_of i f <= final_score)) as Step.
    { intros bp' bs' E Le Here Head.
      destruct (IH bp' bs' chosen E) as (fs & Which & Max).
      exists fs.
      assert (bs' <= fs) as Le'.
      { destruct Which as [[_ ->] | (i & f & _ & _ & _ & L)]; lia. }
      split.
      - destruct Which as [[-> ->] | (i & f & -> & (I & Em & C & P) & S & L)].
        + destruct Here as [[-> ->] | (f & -> & Hf & S & L)];
            [now left |].
          right. exists img, f. repeat split; auto; apply Hf.
        + right. exists i, f. repeat split; auto; [now right | lia].
      - intros i f (I & Em & C & P).
        destruct I as [<- | I].
        + specialize (Head f Em C P). lia.
        + apply Max. repeat split; assumption. }
    destruct (is_empty img) eqn:Em.
    { intros E. apply (Step bp bs E); [lia | now left |].
      intros f Em'. discriminate. }
    destruct (count_faces img) as [faces | e] eqn:C; cbn [bind];
      [| discriminate].
    destruct (Nat.ltb_spec 0 faces) as [P | P].
    + cbv zeta. destruct (Z.ltb_spec bs (score_of img faces)) as [L | L].
      * intros E. apply (Step (Some img) (score_of img faces) E); [lia | |].
        -- right. exists faces. repeat split; auto. now left.
        -- intros f _ C' _. injection C' as <-. lia.
      * intros E. apply (Step bp bs E); [lia | now left |].
        intros f _ C' _. injection C' as <-. exact L.
    + intros E. apply (Step bp bs E); [lia | now left |].
      intros f _ C' P'. injection C' as <-. lia.
Qed.

Lemma best_photo_loop_returns images :
  (forall img, In img images -> is_empty img = false ->
               exists faces, count_faces img = Ok faces) ->
  forall best_photo best_score,
    exists chosen, best_photo_loop images best_photo best_score = Ok chosen.
Proof.
  induction images as [|img rest IH]; intros H bp bs;
    cbn [Improved.best_photo_loop]; [eexists; reflexivity |].
  assert (forall bp' bs', exists chosen,
            best_photo_loop rest bp' bs' = Ok chosen) as R.
  { apply IH. intros i Hi. apply H. now right. }
  destruct (is_empty img) eqn:Em; [apply R |].
  destruct (H img (or_introl eq_refl) Em) as (faces & ->). cbn [bind].
  destruct (0 <? faces)%nat; [| apply R].
  cbv zeta. destruct (bs <? score_of img faces); apply R.
Qed.

(** [detect_best_photo] returns when the cascade runs on every non-empty
    image.  The photo it returns is a non-empty image with a face whose
    score -- its area times its number of faces -- is positive and no
    smaller than the score of any other such image; it returns [None]
    only when no non-empty image with a face has a positive score. *)
Theorem detect_best_photo_maximal (images : list Image) :
  ((forall img, In img images -> is_empty img = false ->
                exists faces, count_faces img = Ok faces) ->
   exists chosen, detect_best_photo images = Ok chosen) /\
  (forall chosen,
     detect_best_photo images = Ok chosen ->
     match chosen with
     | Some photo =>
         exists faces,
           has_faces images photo faces /\ 0 < score_of photo faces /\
           forall img n, has_faces images img n ->
                         score_of img n <= score_of photo faces
     | None =>
         forall img n, has_faces images img n -> score_of img n <= 0
     end).
Proof.
  split.
  - intros H. unfold Improved.detect_best_photo.
    destruct images as [|img rest]; [eexists; reflexivity |].
    now apply best_photo_loop_returns.
  - intros chosen. unfold Improved.detect_best_photo.
    destruct images as [|img rest].
    { intros E. injection E as <-. intros i n (I & _). destruct I. }
    intros E.
    destruct (best_photo_loop_spec (img :: rest) None 0 chosen E)
      as (fs & Which & Max).
    destruct Which as [[-> ->] | (i & f & -> & Hf & S & L)].
    + exact Max.
    + exists f. split; [exact Hf |]. rewrite S. split; [exact L | exact Max].
Qed.

End BestPhotoProperties.

(** The crop of a face that lies inside the image stays inside the image
    and contains the face.  On the left and at the top it adds the margin,
    or the distance to the edge when that is smaller; on the right and at
    the bottom it adds what is left of twice the margin, or the distance
    to the edge when that is smaller -- so more than the margin when the
    face is nearer than the margin to the left or top edge. *)
Theorem crop_with_margin_inside (shape : Z * Z) (x y w h : Z) :
  0 <= x -> 0 <= y -> 0 < w -> 0 < h ->
  x + w <= snd shape -> y + h <= fst shape ->
  let '(x', y', w', h') := Improved.crop_with_margin shape x y w h in
  0 <= x' <= x /\ 0 <= y' <= y /\
  x + w <= x' + w' <= snd shape /\ y + h <= y' + h' <= fst shape /\
  x - x' <= Improved.margin /\ y - y' <= Improved.margin /\
  w' <= w + 2 * Improved.margin /\ h' <= h + 2 * Improved.margin /\
  x - x' = Z.min x Improved.margin /\
  y - y' = Z.min y Improved.margin /\
  (x' + w') - (x + w)
  = Z.min (snd shape - (x + w)) (2 * Improved.margin - (x - x')) /\
  (y' + h') - (y + h)
  = Z.min (fst shape - (y + h)) (2 * Improved.margin - (y - y')).
Proof.
  intros Hx Hy Hw Hh Hxw Hyh.
  unfold Improved.crop_with_margin, Improved.margin. cbv zeta.
  repeat split; lia.
Qed.

Lemma crop_with_margin_inside_witness :
  let '(x', y', w', h') := Improved.crop_with_margin (100, 80) 5 30 40 50 in
  0 <= x' <= 5 /\ 0 <= y' <= 30 /\
  5 + 40 <= x' + w' <= snd (100, 80) /\ 30 + 50 <= y' + h' <= fst (100, 80) /\
  5 - x' <= Improved.margin /\ 30 - y' <= Improved.margin /\
  w' <= 40 + 2 * Improved.margin /\ h' <= 50 + 2 * Improved.margin /\
  5 - x' = Z.min 5 Improved.margin /\
  30 - y' = Z.min 30 Improved.margin /\
  (x' + w') - (5 + 40)
  = Z.min (snd (100, 80) - (5 + 40)) (2 * Improved.margin - (5 - x')) /\
  (y' + h') - (30 + 50)
  = Z.min (fst (100, 80) - (30 + 50)) (2 * Improved.margin - (30 - y')).
Proof.
  apply (crop_with_margin_inside (100, 80) 5 30 40 50); simpl; lia.
Defined.

Example crop_near_left_edge :
  Improved.crop_with_margin (100, 80) 5 30 40 50 = (0, 20, 60, 70).
Proof. reflexivity. Qed.

(** ** The name loop of bkp/document_processor_simple.py *)

Example simple_rejects_one_word :
  Simple.extract_nome [[lit "Fernando"]; [lit "joao da silva"]]
  = lit "Joao Da Silva".
Proof. vm_compute. reflexivity. Qed.

Lemma first_valid_spec matches :
  Simple.first_valid matches = [] \/
  exists m,
    In m matches /\
    Simple.first_valid matches
    = filter (in_cls no_flags Simple.letters_and_space) (str_title (strip m))
    /\ Simple.name_is_valid (Simple.first_valid matches) = true.
Proof.
  induction matches as [|m rest IH]; [now left |].
  cbn [Simple.first_valid]. cbv zeta.
  destruct (Simple.name_is_valid
              (filter (in_cls no_flags Simple.letters_and_space)
                      (str_title (strip m)))) eqn:V.
  - right. exists m. split; [now left |]. split; [reflexivity | exact V].
  - destruct IH as [E | (m' & I & E & V')]; [now left |].
    right. exists m'. split; [now right |]. split; assumption.
Qed.

(** This version of the name extraction does ask for two words: the name
    it returns is empty, or it is the cleaned title-cased form of one of
    the captures and has more than five characters, at least two words,
    no digit, and is none of the three placeholder texts. *)
Theorem simple_name_has_two_words (captures : list (list str)) :
  let nome := Simple.extract_nome captures in
  nome = [] \/
  (exists matches m,
     In matches captures /\ In m matches /\
     nome = filter (in_cls no_flags Simple.letters_and_space)
                   (str_title (strip m))) /\
  (5 < length nome)%nat /\ (2 <= length (split nome))%nat /\
  Forall (fun c => is_digit c = false) nome /\
  ~ In (str_lower nome) Simple.placeholders.
Proof.
  cbv zeta. induction captures as [|matches rest IH]; [now left |].
  cbn [Simple.extract_nome].
  destruct (first_valid_spec matches) as [E | (m & I & E & V)].
  - rewrite E. destruct IH as [E' | ((ms & m & I & I' & E') & Rest)];
      [now left |].
    right. split; [| exact Rest]. exists ms, m.
    split; [now right |]. split; assumption.
  - destruct (Simple.first_valid matches) as [|c nome] eqn:F.
    { discriminate V. }
    right. split.
    + exists matches, m. split; [now left |]. split; assumption.
    + unfold Simple.name_is_valid in V.
      apply andb_true_iff in V. destruct V as [V Np].
      apply andb_true_iff in V. destruct V as [V Nd].
      apply andb_true_iff in V. destruct V as [L W].
      apply Nat.ltb_lt in L. apply Nat.leb_le in W.
      apply negb_true_iff in Nd, Np.
      split; [exact L |]. split; [exact W |]. split.
      * apply Forall_forall. intros d Hd.
        destruct (is_digit d) eqn:D; [| reflexivity].
        assert (existsb is_digit (c :: nome) = true)
          by (apply existsb_exists; eauto).
        congruence.
      * intros I'. apply str_in_In in I'. congruence.
Qed.
